(** * Resilience core of the monorepo: retry engine, backoff strategies,
      client-identity resolution and the breaker-gated rate limiter.

    Shallow embedding of
      - package retry: [Do] with its [Config], and the exponential, constant
        and linear backoff strategies;
      - package middleware: the rate limiter of rate_limit.go with its key
        strategies, [RealIP] of real_ip.go and the security logger of
        security_logger.go.

    Conventions.
      - Go [int], [int64] and [time.Duration] are 64-bit two's-complement
        integers: values are [Z], and arithmetic that can leave the 64-bit range
        goes through [wrap64].
      - Go [float64] is IEEE-754 binary64: values are Rocq's primitive [float].
      - Go strings are byte strings: [string] of the standard library.
      - Effects (the retried operation, the context, the clock, the quota
        store, the loggers) are threaded explicitly through a world state and
        recorded in traces or logs.
      - Functions of the Go runtime and of third-party packages that the code
        calls are parameters (the class [GoNet], [math.Pow], the environment
        records), or are modelled after their documentation ([GoStrings],
        [Http]). *)

From Stdlib Require Import ZArith Floats Lia Bool List String Ascii DecimalString.
From stdpp Require Import base option list gmap strings.
Import ListNotations.

Local Open Scope string_scope.
Local Open Scope list_scope.
Local Open Scope Z_scope.

(** ** Machine integers *)

Definition MinInt64 : Z := - 2 ^ 63.
Definition MaxInt64 : Z := 2 ^ 63 - 1.

Definition in_int64 (z : Z) : Prop := MinInt64 <= z <= MaxInt64.

(** Two's-complement wrap-around of a mathematical result to 64 bits. *)
Definition wrap64 (z : Z) : Z := (z + 2 ^ 63) mod 2 ^ 64 - 2 ^ 63.

(** [time.Duration] constants (nanoseconds). *)
Definition Millisecond : Z := 1000000.
Definition Second : Z := 1000000000.

(** * Package retry: [Do] *)

Module Retry.

(** [context.Canceled] and [context.DeadlineExceeded], the two values
    [ctx.Err()] can return once the context is done. *)
Inductive CtxErr := Canceled | DeadlineExceeded.

Inductive Code := Invalid.

Section Errors.
(** Errors of foreign packages, as returned by the retried operation. *)
Variable OpErr : Type.

(** Error values, built the way the source builds them with the [fault]
    package: [fault.New(msg, opts...)] and [fault.Wrap(err, msg, opts...)]. *)
Inductive error :=
| EOp (e : OpErr)
| ECtx (c : CtxErr)
| New (msg : string) (opts : list FaultOption)
| Wrap (base : error) (msg : string) (opts : list FaultOption)
with FaultOption :=
| WithCode (c : Code)
| WithContext (key : string) (value : Z)
| WithWrappedErr (e : error).

Definition ErrMaxAttemptsReached : error :=
  New "maximum retry attempts reached" [WithCode Invalid].

Definition ErrInvalidConfig : error :=
  New "invalid retry configuration" [WithCode Invalid].
End Errors.

Arguments EOp {OpErr} e.
Arguments ECtx {OpErr} c.
Arguments New {OpErr} msg opts.
Arguments Wrap {OpErr} base msg opts.
Arguments WithCode {OpErr} c.
Arguments WithContext {OpErr} key value.
Arguments WithWrappedErr {OpErr} e.
Arguments ErrMaxAttemptsReached {OpErr}.
Arguments ErrInvalidConfig {OpErr}.

Inductive Level := Debug | Warn.

(** Which logger receives the records: [config.Logger], or [slog.Default()]
    when it is nil. *)
Inductive logger := SlogDefault | Custom (id : nat).

Section Do.
Context {OpErr World : Type}.

Local Abbreviation error := (error OpErr).

(** Values of the key/value pairs handed to the logger. [AErrText e] stands
    for the text [e.Error()]. *)
Inductive attr := AInt (z : Z) | AErrText (e : error).

(** What [Do] does to the outside, in order. *)
Inductive event :=
| EvCall (outcome : option error)          (* fn(ctx) returned outcome *)
| EvOnRetry (attempt : Z) (err : error)    (* config.OnRetry(attempt, err) *)
| EvSleep (delay : Z) (cancelled : bool)   (* the select on ctx.Done / time.After *)
| EvLog (lg : logger) (lvl : Level) (msg : string) (attrs : list (string * attr)).

(** [Strategy] interface: [NextDelay] may consult shared state (a lock, the
    random source), so it runs in the world. [Reset] is never called by [Do]. *)
Record Strategy := { NextDelay : Z -> World -> Z * World }.

Record Config := {
  MaxAttempts : Z;
  Strategy_ : option Strategy;
  OnRetry : option (Z -> error -> World -> World);
  Logger : option nat
}.

(** The environment of one call of [Do]. *)
Record Env := {
  fn : World -> option error * World;          (* fn(ctx), the retried operation *)
  ctx_Err : World -> option CtxErr;            (* ctx.Err() *)
  select_sleep : Z -> World -> option CtxErr * World
    (* the select statement: Some c when the ctx.Done() case is taken, c being
       ctx.Err() then; None when time.After(delay) fires *)
}.

Definition Validate (c : Config) : option error :=
  if MaxAttempts c <? 0 then
    Some (Wrap ErrInvalidConfig "max attempts must be non-negative"
            [WithContext "max_attempts" (MaxAttempts c)])
  else match Strategy_ c with
       | None => Some (Wrap ErrInvalidConfig "strategy cannot be nil" [])
       | Some _ => None
       end.

Record outcome := {
  ret : option error;      (* nil is None *)
  world : World;
  trace : list event
}.

Definition cancelled_error (c : CtxErr) (msg : string) (attempt max : Z) : error :=
  Wrap (ECtx c) msg [WithContext "attempt" attempt; WithContext "max_attempts" max].

Definition exhausted_error (max : Z) (last : error) : error :=
  Wrap ErrMaxAttemptsReached "all retry attempts failed"
    [WithContext "attempts" max; WithWrappedErr last].

Definition the_logger (c : Config) : logger :=
  match Logger c with None => SlogDefault | Some id => Custom id end.

Definition prepend (evs : list event) (o : outcome) : outcome :=
  {| ret := ret o; world := world o; trace := evs ++ trace o |}.

(** The [for attempt := 0; attempt < config.MaxAttempts; attempt++] loop,
    entered with [n = MaxAttempts - attempt] iterations left and [err] the
    error of the previous invocation. [attempt + 1] cannot overflow since
    [attempt < MaxAttempts]. *)
Fixpoint retry_loop (c : Config) (s : Strategy) (E : Env)
         (n : nat) (attempt : Z) (err : error) (w : World) : outcome :=
  match n with
  | O =>
      {| ret := Some (exhausted_error (MaxAttempts c) err);
         world := w;
         trace := [EvLog (the_logger c) Warn "All retry attempts failed"
                     [("max_attempts", AInt (MaxAttempts c)); ("error", AErrText err)]] |}
  | S n' =>
      match ctx_Err E w with
      | Some ce =>
          {| ret := Some (cancelled_error ce "context cancelled during retry"
                            attempt (MaxAttempts c));
             world := w; trace := [] |}
      | None =>
          let '(w1, hook) :=
            match OnRetry c with
            | Some f => (f attempt err w, [EvOnRetry attempt err])
            | None => (w, [])
            end in
          let '(delay, w2) := NextDelay s attempt w1 in
          let log := EvLog (the_logger c) Debug "Retrying after delay"
                       [("attempt", AInt (attempt + 1));
                        ("max_attempts", AInt (MaxAttempts c));
                        ("delay_ms", AInt (Z.quot delay Millisecond))] in
          match select_sleep E delay w2 with
          | (Some ce, w3) =>
              {| ret := Some (cancelled_error ce "context cancelled during retry delay"
                                attempt (MaxAttempts c));
                 world := w3;
                 trace := hook ++ [log; EvSleep delay true] |}
          | (None, w3) =>
              match fn E w3 with
              | (None, w4) =>
                  {| ret := None; world := w4;
                     trace := hook ++ [log; EvSleep delay false; EvCall None;
                                       EvLog (the_logger c) Debug "Retry succeeded"
                                         [("attempt", AInt (attempt + 1));
                                          ("total_attempts", AInt (attempt + 2))]] |}
              | (Some e, w4) =>
                  prepend (hook ++ [log; EvSleep delay false; EvCall (Some e)])
                          (retry_loop c s E n' (attempt + 1) e w4)
              end
          end
      end
  end.

Definition Do (c : Config) (E : Env) (w : World) : outcome :=
  match Validate c with
  | Some e => {| ret := Some e; world := w; trace := [] |}
  | None =>
      match Strategy_ c with
      | None => (* excluded by Validate *)
          {| ret := Some (Wrap ErrInvalidConfig "strategy cannot be nil" []);
             world := w; trace := [] |}
      | Some s =>
          match fn E w with
          | (None, w1) => {| ret := None; world := w1; trace := [EvCall None] |}
          | (Some err, w1) =>
              if MaxAttempts c =? 0 then
                {| ret := Some err; world := w1; trace := [EvCall (Some err)] |}
              else
                prepend [EvCall (Some err);
                         EvLog (the_logger c) Debug "Starting retry attempts"
                           [("max_attempts", AInt (MaxAttempts c));
                            ("error", AErrText err)]]
                        (retry_loop c s E (Z.to_nat (MaxAttempts c)) 0 err w1)
          end
      end
  end.

(** Observations on a trace. *)
Definition is_call (e : event) : bool :=
  match e with EvCall _ => true | _ => false end.

Definition calls (tr : list event) : Z :=
  Z.of_nat (length (List.filter is_call tr)).

(** Outcome of the last invocation recorded in the trace. *)
Fixpoint last_call (tr : list event) : option (option error) :=
  match tr with
  | [] => None
  | e :: tr' =>
      match last_call tr' with
      | Some o => Some o
      | None => match e with EvCall o => Some o | _ => None end
      end
  end.


(** The operation fails whenever it is invoked. *)
Definition always_fails (E : Env) : Prop := forall w, exists e, fst (fn E w) = Some e.

(** The context is never found done, neither at the loop head nor in the
    select. *)
Definition never_cancelled (E : Env) : Prop :=
  (forall w, ctx_Err E w = None) /\ (forall d w, fst (select_sleep E d w) = None).


(** The state in which the select of one iteration is entered: the delay the
    strategy returned and the world after the [OnRetry] hook and [NextDelay]. *)
Definition at_select (c : Config) (s : Strategy) (attempt : Z) (err : error) (w : World)
  : Z * World :=
  NextDelay s attempt
    (match OnRetry c with Some f => f attempt err w | None => w end).

(** More observations on a trace: the delays of the selects entered, in
    order; how many of them ran to the end of the delay; the attempt numbers
    handed to the [OnRetry] hook, in order. *)
Fixpoint slept (tr : list event) : list Z :=
  match tr with
  | [] => []
  | EvSleep delay _ :: tr' => delay :: slept tr'
  | _ :: tr' => slept tr'
  end.

Fixpoint sleeps_done (tr : list event) : Z :=
  match tr with
  | [] => 0
  | EvSleep _ false :: tr' => 1 + sleeps_done tr'
  | _ :: tr' => sleeps_done tr'
  end.

Fixpoint hooked (tr : list event) : list Z :=
  match tr with
  | [] => []
  | EvOnRetry attempt _ :: tr' => attempt :: hooked tr'
  | _ :: tr' => hooked tr'
  end.

End Do.

Arguments Strategy : clear implicits.
Arguments Config : clear implicits.
Arguments Env : clear implicits.
Arguments outcome : clear implicits.
Arguments event : clear implicits.

End Retry.

(** * Package retry: backoff strategies *)

Module Backoff.

(** ** float64 conversions *)

(** [float64(z)] for an int64 [z]: the nearest binary64 value, ties to even. *)
Definition float_of_int64 (z : Z) : float :=
  if z =? MinInt64 then (- (PrimFloat.of_uint63 (Uint63.of_Z (2 ^ 62)) * 2))%float
  else if z <? 0 then (- PrimFloat.of_uint63 (Uint63.of_Z (- z)))%float
  else PrimFloat.of_uint63 (Uint63.of_Z z).

(** [int64(f)] (and [time.Duration(f)]) for a float64 [f]: truncation toward
    zero. When [f] is NaN, infinite or out of range the Go specification leaves
    the value to the implementation; the value taken here is the one of amd64
    ([MinInt64], the "integer indefinite"). *)
Definition int64_of_float (f : float) : Z :=
  match Prim2SF f with
  | S754_zero _ => 0
  | S754_finite sign m e =>
      let mag := if 0 <=? e then Z.pos m * 2 ^ e else Z.pos m / 2 ^ (- e) in
      let v := if sign then - mag else mag in
      if (MinInt64 <=? v) && (v <=? MaxInt64) then v else MinInt64
  | S754_infinity _ | S754_nan => MinInt64
  end.

(** ** Exponential backoff *)

Module Exponential.

(** The mutex [mu] only serialises calls; it carries no data. *)
Record ExponentialBackoff := {
  e_min : Z;
  e_max : Z;
  e_factor : float;
  e_jitter : bool
}.

Record ExponentialBackoffConfig := {
  Min : Z;
  Max : Z;
  Factor : float;
  Jitter : bool
}.

Definition NewExponentialBackoff (config : ExponentialBackoffConfig) : ExponentialBackoff :=
  let Min1 := if Min config <=? 0 then 1 * Second else Min config in
  let Max1 := if Max config <? Min1 then Min1 else Max config in
  let Factor1 := if (Factor config <=? 1)%float then 2%float else Factor config in
  {| e_min := Min1; e_max := Max1; e_factor := Factor1; e_jitter := Jitter config |}.

Definition NewDefaultExponentialBackoff : ExponentialBackoff :=
  NewExponentialBackoff
    {| Min := 1 * Second; Max := 30 * Second; Factor := 2%float; Jitter := true |}.

Section WithPow.
(** [math.Pow] of the Go runtime. *)
Variable Pow : float -> float -> float.

(** The value of the local [delay] before jitter is applied. *)
Definition capped_delay (e : ExponentialBackoff) (attempt : Z) : float :=
  let attempt := if attempt <? 0 then 0 else attempt in
  let delay := (float_of_int64 (e_min e) * Pow (e_factor e) (float_of_int64 attempt))%float in
  if (float_of_int64 (e_max e) <? delay)%float then float_of_int64 (e_max e) else delay.

(** [rnd] is the value drawn by [rand.Float64()]; it is drawn only when
    jitter is enabled. *)
Definition NextDelay (e : ExponentialBackoff) (attempt : Z) (rnd : float) : Z :=
  let delay := capped_delay e attempt in
  let delay := if e_jitter e then (delay * (0.5 + rnd))%float else delay in
  int64_of_float delay.
End WithPow.

(** The well-formedness the constructor is meant to establish. *)
Definition exp_valid (e : ExponentialBackoff) : Prop :=
  0 < e_min e /\ e_min e <= e_max e /\ (1 <? e_factor e)%float = true.

End Exponential.

(** ** Constant backoff *)

Module Constant.

Record ConstantBackoff := { c_delay : Z }.

Definition NewConstantBackoff (delay : Z) : ConstantBackoff :=
  {| c_delay := if delay <=? 0 then 1 * Second else delay |}.

Definition NextDelay (c : ConstantBackoff) (attempt : Z) : Z := c_delay c.

End Constant.

(** ** Linear backoff *)

Module Linear.

(** The mutex [mu] only serialises calls; it carries no data. *)
Record LinearBackoff := {
  l_increment : Z;
  l_max : Z
}.

Definition NewLinearBackoff (increment max : Z) : LinearBackoff :=
  let increment := if increment <=? 0 then 1 * Second else increment in
  let max := if max <? increment then increment else max in
  {| l_increment := increment; l_max := max |}.

(** [delay := l.increment * time.Duration(attempt+1)]: both the increment of
    [attempt] and the product are 64-bit operations. *)
Definition NextDelay (l : LinearBackoff) (attempt : Z) : Z :=
  let attempt := if attempt <? 0 then 0 else attempt in
  let delay := wrap64 (l_increment l * wrap64 (attempt + 1)) in
  if l_max l <? delay then l_max l else delay.

(** The well-formedness the constructor is meant to establish. *)
Definition lin_valid (l : LinearBackoff) : Prop :=
  0 < l_increment l /\ l_increment l <= l_max l.

End Linear.

Export Exponential(ExponentialBackoff, ExponentialBackoffConfig, NewExponentialBackoff,
                   NewDefaultExponentialBackoff, capped_delay, exp_valid,
                   e_min, e_max, e_factor, e_jitter, Min, Max, Factor, Jitter,
                   Build_ExponentialBackoff, Build_ExponentialBackoffConfig).
Export Constant(ConstantBackoff, NewConstantBackoff, c_delay, Build_ConstantBackoff).
Export Linear(LinearBackoff, NewLinearBackoff, lin_valid, l_increment, l_max,
              Build_LinearBackoff).

End Backoff.

(** * Package retry: configuration (config.go) *)

Module RetryConfig.

Import Retry Backoff.

Record BackoffConfig := {
  Type_ : string;
  bc_Min : Z;
  bc_Max : Z;
  bc_Factor : float;
  bc_Jitter : bool;
  Delay : Z;
  Increment : Z
}.

Record RetryConfig := {
  rc_MaxAttempts : Z;
  rc_Backoff : BackoffConfig
}.

(** The values of the [Strategy] interface that the package builds. *)
Inductive StrategyImpl :=
| OfExponential (e : ExponentialBackoff)
| OfConstant (c : ConstantBackoff)
| OfLinear (l : LinearBackoff).

(** [(bc *BackoffConfig) CreateStrategy]: the strategy, or the text of the
    error. *)
Definition CreateStrategy (bc : BackoffConfig) : StrategyImpl + string :=
  if String.eqb (Type_ bc) "exponential" then
    inl (OfExponential
           (NewExponentialBackoff
              {| Min := bc_Min bc; Max := bc_Max bc; Factor := bc_Factor bc;
                 Jitter := bc_Jitter bc |}))
  else if String.eqb (Type_ bc) "constant" then
    inl (OfConstant (NewConstantBackoff (Delay bc)))
  else if String.eqb (Type_ bc) "linear" then
    inl (OfLinear (NewLinearBackoff (Increment bc) (bc_Max bc)))
  else inr ("unknown backoff type: " +:+ Type_ bc).

(** The backoff types [CreateStrategy] knows. *)
Definition known_type (t : string) : Prop :=
  t = "exponential" \/ t = "constant" \/ t = "linear".

Section InWorld.
Context {OpErr World : Type}.

(** [math.Pow], and [rand.Float64()] drawing from the world. *)
Variable Pow : float -> float -> float.
Variable rand_Float64 : World -> float * World.

(** The dynamic dispatch of [strategy.NextDelay(attempt)]. The exponential
    strategy draws a random number only when its jitter is enabled. *)
Definition dispatch (impl : StrategyImpl) : Strategy World :=
  {| NextDelay := fun attempt w =>
       match impl with
       | OfExponential e =>
           if e_jitter e then
             let '(rnd, w') := rand_Float64 w in
             (Exponential.NextDelay Pow e attempt rnd, w')
           else (Exponential.NextDelay Pow e attempt 0, w)
       | OfConstant c => (Constant.NextDelay c attempt, w)
       | OfLinear l => (Linear.NextDelay l attempt, w)
       end |}.

(** [(rc *RetryConfig) ToConfig]. *)
Definition ToConfig (rc : RetryConfig) : Config OpErr World + string :=
  match CreateStrategy (rc_Backoff rc) with
  | inr err => inr err
  | inl strategy =>
      inl {| MaxAttempts := rc_MaxAttempts rc;
             Strategy_ := Some (dispatch strategy);
             OnRetry := None;
             Logger := None |}
  end.

End InWorld.

End RetryConfig.

(** * Go runtime: strings, net/http headers *)

Module GoStrings.

Definition byte_of (c : ascii) : Z := Z.of_N (N_of_ascii c).

(** [strings.Split(s, sep)] for a one-byte separator: all the pieces between
    separators, hence never the empty list. *)
Fixpoint Split (s : string) (sep : ascii) : list string :=
  match s with
  | EmptyString => [EmptyString]
  | String c s' =>
      if Ascii.eqb c sep then EmptyString :: Split s' sep
      else match Split s' sep with
           | piece :: rest => String c piece :: rest
           | [] => [String c EmptyString]
           end
  end.

(** [unicode.IsSpace] on the UTF-8 encodings: the six ASCII characters, then
    U+0085 and U+00A0 (two bytes), then U+1680, U+2000..U+200A, U+2028, U+2029,
    U+202F, U+205F and U+3000 (three bytes). *)
Definition space1 (c : ascii) : bool :=
  let b := byte_of c in ((9 <=? b) && (b <=? 13)) || (b =? 32).

Definition space2 (c1 c2 : ascii) : bool :=
  (byte_of c1 =? 194) && ((byte_of c2 =? 133) || (byte_of c2 =? 160)).

Definition space3 (c1 c2 c3 : ascii) : bool :=
  let '(b1, b2, b3) := (byte_of c1, byte_of c2, byte_of c3) in
  ((b1 =? 225) && (b2 =? 154) && (b3 =? 128))
  || ((b1 =? 226) && (b2 =? 128)
      && (((128 <=? b3) && (b3 <=? 138)) || (b3 =? 168) || (b3 =? 169) || (b3 =? 175)))
  || ((b1 =? 226) && (b2 =? 129) && (b3 =? 159))
  || ((b1 =? 227) && (b2 =? 128) && (b3 =? 128)).

(** Drop the white-space runes at the front. [sp2] and [sp3] recognise the
    two- and three-byte encodings in the order the bytes are met. *)
Fixpoint trim_front (sp2 : ascii -> ascii -> bool) (sp3 : ascii -> ascii -> ascii -> bool)
         (l : list ascii) : list ascii :=
  match l with
  | [] => []
  | c1 :: l1 =>
      if space1 c1 then trim_front sp2 sp3 l1
      else match l1 with
           | [] => l
           | c2 :: l2 =>
               if sp2 c1 c2 then trim_front sp2 sp3 l2
               else match l2 with
                    | [] => l
                    | c3 :: l3 => if sp3 c1 c2 c3 then trim_front sp2 sp3 l3 else l
                    end
           end
  end.

(** [strings.TrimSpace]: leading, then trailing white space removed. The
    trailing runes are decoded from the end, so the bytes come reversed. *)
Definition TrimSpace (s : string) : string :=
  let front := trim_front space2 space3 (list_ascii_of_string s) in
  let back := trim_front (fun a b => space2 b a) (fun a b c => space3 c b a) (rev front) in
  string_of_list_ascii (rev back).

(** [strconv.Itoa] and [strconv.FormatInt(_, 10)]. *)
Definition Itoa (z : Z) : string := NilZero.string_of_int (Z.to_int z).

(** [string(rune(n))] for an [int] [n]: [n] is cut to 32 bits, then encoded in
    UTF-8; a code point that is not valid yields U+FFFD. *)
Definition byte_string (bs : list Z) : string :=
  string_of_list_ascii (map (fun b => ascii_of_N (Z.to_N b)) bs).

Definition string_of_rune (n : Z) : string :=
  let r := (n + 2 ^ 31) mod 2 ^ 32 - 2 ^ 31 in
  if (r <? 0) || (1114111 <? r) || ((55296 <=? r) && (r <=? 57343)) then
    byte_string [239; 191; 189]
  else if r <? 128 then byte_string [r]
  else if r <? 2048 then byte_string [192 + r / 64; 128 + r mod 64]
  else if r <? 65536 then
    byte_string [224 + r / 4096; 128 + (r / 64) mod 64; 128 + r mod 64]
  else
    byte_string [240 + r / 262144; 128 + (r / 4096) mod 64;
                 128 + (r / 64) mod 64; 128 + r mod 64].

End GoStrings.

Module Http.

Import GoStrings.

(** [http.Header]: canonical key to the list of its values. *)
Abbreviation Header := (gmap string (list string)).

(** Bytes allowed in a header field name (RFC 7230 token). *)
Definition validHeaderFieldByte (c : ascii) : bool :=
  let b := byte_of c in
  ((48 <=? b) && (b <=? 57)) || ((65 <=? b) && (b <=? 90)) || ((97 <=? b) && (b <=? 122))
  || existsb (Z.eqb b) [33; 35; 36; 37; 38; 39; 42; 43; 45; 46; 94; 95; 96; 124; 126].

Fixpoint canon_case (upper : bool) (s : string) : string :=
  match s with
  | EmptyString => EmptyString
  | String c s' =>
      let b := byte_of c in
      let b' := if upper && (97 <=? b) && (b <=? 122) then b - 32
                else if negb upper && (65 <=? b) && (b <=? 90) then b + 32
                else b in
      String (ascii_of_N (Z.to_N b')) (canon_case (b' =? 45) s')
  end.

(** [textproto.CanonicalMIMEHeaderKey]: a key holding a byte that is not
    allowed in a field name is returned as it is. *)
Definition CanonicalMIMEHeaderKey (s : string) : string :=
  if forallb validHeaderFieldByte (list_ascii_of_string s) then canon_case true s else s.

Definition Get (h : Header) (key : string) : string :=
  match h !! CanonicalMIMEHeaderKey key with
  | Some (v :: _) => v
  | _ => EmptyString
  end.

Definition Set_ (h : Header) (key value : string) : Header :=
  <[CanonicalMIMEHeaderKey key := [value]]> h.

Definition Del (h : Header) (key : string) : Header :=
  delete (CanonicalMIMEHeaderKey key) h.

(** The part of [*http.Request] the middlewares read. [ctx_user_id] is the
    value stored in the request context under ["user_id"], as [%v] prints it. *)
Record Request := {
  RemoteAddr : string;
  ReqHeader : Header;
  Method : string;
  Path : string;
  ctx_user_id : option string
}.

Definition with_RemoteAddr (r : Request) (addr : string) : Request :=
  {| RemoteAddr := addr; ReqHeader := ReqHeader r; Method := Method r;
     Path := Path r; ctx_user_id := ctx_user_id r |}.

Definition UserAgent (r : Request) : string := Get (ReqHeader r) "User-Agent".

(** [http.ResponseWriter]: the header map, the status once written, and the
    body written so far. *)
Record ResponseWriter := {
  RespHeader : Header;
  Status : option Z;
  Body : string
}.

Definition set_header (w : ResponseWriter) (key value : string) : ResponseWriter :=
  {| RespHeader := Set_ (RespHeader w) key value; Status := Status w; Body := Body w |}.

Definition del_header (w : ResponseWriter) (key : string) : ResponseWriter :=
  {| RespHeader := Del (RespHeader w) key; Status := Status w; Body := Body w |}.

(** A second [WriteHeader] is ignored. *)
Definition WriteHeader (w : ResponseWriter) (code : Z) : ResponseWriter :=
  {| RespHeader := RespHeader w;
     Status := match Status w with Some c => Some c | None => Some code end;
     Body := Body w |}.

(** [Write] sends status 200 first when no status has been written. *)
Definition Write (w : ResponseWriter) (data : string) : ResponseWriter :=
  {| RespHeader := RespHeader w;
     Status := match Status w with Some c => Some c | None => Some 200 end;
     Body := Body w +:+ data |}.

Definition StatusTooManyRequests : Z := 429.
Definition StatusServiceUnavailable : Z := 503.

(** [http.Error(w, error, code)]. *)
Definition Error (w : ResponseWriter) (error : string) (code : Z) : ResponseWriter :=
  let w := del_header w "Content-Length" in
  let w := set_header w "Content-Type" "text/plain; charset=utf-8" in
  let w := set_header w "X-Content-Type-Options" "nosniff" in
  let w := WriteHeader w code in
  Write w (error +:+ String (ascii_of_N 10) EmptyString).

End Http.

(** * Package middleware *)

(** The functions of Go's [net] package the middlewares call. *)
Class GoNet := {
  IP : Type;
  IPNet : Type;
  ParseIP : string -> option IP;                       (* net.ParseIP; None is nil *)
  ParseCIDR : string -> option IPNet;                  (* net.ParseCIDR; None on error *)
  Contains : IPNet -> IP -> bool;                      (* IPNet.Contains *)
  SplitHostPort : string -> option (string * string)   (* net.SplitHostPort; None on error *)
}.

(** The [gobreaker] API as [NewRateLimiter] uses it. *)
Module Gobreaker.

(** [gobreaker.Counts]; the fields are [uint32]. *)
Record Counts := {
  Requests : Z;
  TotalSuccesses : Z;
  TotalFailures : Z;
  ConsecutiveSuccesses : Z;
  ConsecutiveFailures : Z
}.

Record Settings := {
  Name : string;
  MaxRequests : Z;
  Interval : Z;
  Timeout : Z;
  ReadyToTrip : Counts -> bool
}.

(** What [Execute] hands back besides a result: the breaker's own refusals,
    or the error of the protected call. *)
Inductive ExecError :=
| ErrOpenState
| ErrTooManyRequests
| CallError (msg : string).

Definition Error_text (e : ExecError) : string :=
  match e with
  | ErrOpenState => "circuit breaker is open"
  | ErrTooManyRequests => "too many requests"
  | CallError msg => msg
  end.

End Gobreaker.

Module Middleware.

Import GoStrings Http Gobreaker.

(** ** security_logger.go *)

Inductive SlogLevel := LError | LWarn | LInfo.

Definition EventRateLimitExceeded := "rate_limit_exceeded".
Definition EventIPSpoofing := "ip_spoofing".

Definition SeverityLow := "low".
Definition SeverityMedium := "medium".
Definition SeverityHigh := "high".
Definition SeverityCritical := "critical".

(** [logger_attached] tells whether the [*slog.Logger] inside is non-nil. *)
Record SecurityLogger := { logger_attached : bool }.

(** One ["security_event"] record as handed to slog. [details] is a Go map,
    ranged over in no fixed order. The timestamp attribute is left out. *)
Record SecurityRecord := {
  level : SlogLevel;
  event_type : string;
  severity : string;
  ip : string;
  path : string;
  method : string;
  user_agent : string;
  details : gmap string string
}.

Definition getRealIP (r : Request) : string :=
  let xff := Get (ReqHeader r) "X-Forwarded-For" in
  if negb (String.eqb xff "") then xff
  else
    let xri := Get (ReqHeader r) "X-Real-IP" in
    if negb (String.eqb xri "") then xri
    else RemoteAddr r.

(** [SecurityLogger.LogEvent]; the receiver may be nil. *)
Definition LogEvent (s : option SecurityLogger) (eventType sev : string)
           (r : Request) (det : gmap string string) : list SecurityRecord :=
  match s with
  | None => []
  | Some sl =>
      if negb (logger_attached sl) then []
      else
        [{| level := if String.eqb sev SeverityCritical || String.eqb sev SeverityHigh
                     then LError
                     else if String.eqb sev SeverityMedium then LWarn else LInfo;
            event_type := eventType;
            severity := sev;
            ip := getRealIP r;
            path := Path r;
            method := Method r;
            user_agent := UserAgent r;
            details := det |}]
  end.

Definition LogRateLimitExceeded (s : option SecurityLogger) (r : Request)
           (limit : Z) (window : string) : list SecurityRecord :=
  LogEvent s EventRateLimitExceeded SeverityMedium r
    (<["limit" := string_of_rune limit]> (<["window" := window]> ∅)).

Definition LogIPSpoofing (s : option SecurityLogger) (r : Request)
           (suspectedIP : string) : list SecurityRecord :=
  LogEvent s EventIPSpoofing SeverityCritical r (<["suspected_ip" := suspectedIP]> ∅).

Definition EventCSRFViolation := "csrf_violation".
Definition EventLoginSuccess := "login_success".
Definition EventLoginFailed := "login_failed".
Definition EventAccountLocked := "account_locked".
Definition EventPasswordChanged := "password_changed".
Definition EventTokenRefreshed := "token_refreshed".
Definition EventTokenRevoked := "token_revoked".

Definition LogCSRFViolation (s : option SecurityLogger) (r : Request) (reason : string)
  : list SecurityRecord :=
  LogEvent s EventCSRFViolation SeverityHigh r (<["reason" := reason]> ∅).

Definition boolToString (b : bool) : string := if b then "true" else "false".

(** A receiver that is nil, or whose [*slog.Logger] is nil. *)
Definition silent (s : option SecurityLogger) : Prop :=
  s = None \/ exists sl, s = Some sl /\ logger_attached sl = false.

Definition LogAuthEvent (s : option SecurityLogger) (eventType email : string)
           (r : Request) (success : bool) (reason : string) : list SecurityRecord :=
  match s with
  | None => []
  | Some sl =>
      if negb (logger_attached sl) then []
      else
        let severity :=
          if String.eqb eventType EventLoginFailed || String.eqb eventType EventAccountLocked
          then SeverityHigh
          else if String.eqb eventType EventLoginSuccess
                  || String.eqb eventType EventTokenRefreshed
                  || String.eqb eventType EventTokenRevoked
                  || String.eqb eventType EventPasswordChanged
          then SeverityLow
          else SeverityMedium in
        let details :=
          <["email" := email]> (<["success" := boolToString success]> ∅) in
        let details :=
          if negb (String.eqb reason "") then <["reason" := reason]> details
          else details in
        LogEvent (Some sl) eventType severity r details
  end.

(** The record a security logger with a sink writes for a spoofing report. *)
Definition spoofing_record (r : Request) (xff : string) : SecurityRecord :=
  {| level := LError;
     event_type := "ip_spoofing";
     severity := "critical";
     ip := getRealIP r;
     path := Path r;
     method := Method r;
     user_agent := UserAgent r;
     details := <["suspected_ip" := xff]> ∅ |}.


(** ** rate_limit.go *)

(** [redis_rate.Limit] and [redis_rate.Result]. *)
Record RateLimit := { Rate : Z; Period : Z; Burst_ : Z }.

Record Result := {
  Allowed : Z;
  Remaining : Z;
  RetryAfter : Z;
  ResetAfter : Z
}.

Section WithNet.
Context `{GoNet}.

Record RateLimiter := {
  redis_attached : bool;           (* rl.redis != nil *)
  enabled : bool;
  breaker_settings : Settings;     (* what rl.circuitBreaker was built from *)
  trustedProxies : list IPNet;
  securityLogger : option SecurityLogger
}.

(** A strategy yields the key and what it reported to the security logger. *)
Definition RateLimitStrategy := Request -> string * list SecurityRecord.

Record RateLimitRule := {
  Limit_ : Z;
  Window : Z;
  Burst : Z;
  Strategy : RateLimitStrategy
}.

Fixpoint parseTrustedProxies (cidrs : list string) : list IPNet :=
  match cidrs with
  | [] => []
  | cidr :: rest =>
      match ParseCIDR cidr with
      | Some ipnet => ipnet :: parseTrustedProxies rest
      | None => parseTrustedProxies rest
      end
  end.

(** The [ReadyToTrip] closure of [NewRateLimiter]: [failureRatio] is its local
    variable, a float64 quotient of two [uint32] counters; the constant [0.6]
    is the binary64 value nearest to it. *)
Definition failureRatio (counts : Counts) : float :=
  (Backoff.float_of_int64 (TotalFailures counts)
   / Backoff.float_of_int64 (Requests counts))%float.

Definition readyToTrip (counts : Counts) : bool :=
  (3 <=? Requests counts) && (0x1.3333333333333p-1 <=? failureRatio counts)%float.

(** The test [failureRatio >= 0.6] against the same test on the integers,
    [3 * requests <= 5 * failures], for every window of at most [n] requests. *)
Definition ratio_test_agrees (requests failures : nat) : bool :=
  Bool.eqb
    (0x1.3333333333333p-1
     <=? (Backoff.float_of_int64 (Z.of_nat failures)
          / Backoff.float_of_int64 (Z.of_nat requests)))%float
    (3 * Z.of_nat requests <=? 5 * Z.of_nat failures).

Definition ratio_test_agrees_upto (n : nat) : bool :=
  forallb (fun requests =>
             forallb (ratio_test_agrees requests) (List.seq 0 (S requests)))
          (List.seq 1 n).

Definition NewRateLimiter (redisClient : bool) (enabled : bool)
           (trustedProxyCIDRs : list string) (secLogger : option SecurityLogger)
  : RateLimiter :=
  {| redis_attached := redisClient;
     enabled := enabled;
     breaker_settings :=
       {| Name := "redis-rate-limiter";
          MaxRequests := 3;
          Interval := 10 * Second;
          Timeout := 30 * Second;
          ReadyToTrip := readyToTrip |};
     trustedProxies := parseTrustedProxies trustedProxyCIDRs;
     securityLogger := secLogger |}.

Definition isTrustedProxy (rl : RateLimiter) (ip : string) : bool :=
  match ParseIP ip with
  | None => false
  | Some parsedIP => existsb (fun ipnet => Contains ipnet parsedIP) (trustedProxies rl)
  end.

(** A peer is trusted when it parses as an IP address that one of the
    configured networks contains. *)
Definition in_trusted_range (rl : RateLimiter) (peer : string) : Prop :=
  exists ip ipnet,
    ParseIP peer = Some ip /\ In ipnet (trustedProxies rl) /\ Contains ipnet ip = true.

Definition parseIP (addr : string) : string :=
  match SplitHostPort addr with
  | None => addr
  | Some (host, _) => host
  end.

(** [strings.Split(xff, ",")[0]]; [Split] never returns an empty slice. *)
Definition first_entry (xff : string) : string :=
  match Split xff "," with
  | piece :: _ => piece
  | [] => EmptyString
  end.

Definition ByIP (rl : RateLimiter) : RateLimitStrategy := fun r =>
  let remoteIP := parseIP (RemoteAddr r) in
  let xff := Get (ReqHeader r) "X-Forwarded-For" in
  if isTrustedProxy rl remoteIP then
    if negb (String.eqb xff "") then (TrimSpace (first_entry xff), [])
    else (remoteIP, [])
  else if negb (String.eqb xff "") then
    (remoteIP,
     match securityLogger rl with
     | Some sl => LogIPSpoofing (Some sl) r xff
     | None => []
     end)
  else (remoteIP, []).

Definition ByUser (rl : RateLimiter) : RateLimitStrategy := fun r =>
  match ctx_user_id r with
  | Some userID => ("user:" +:+ userID, [])
  | None => ByIP rl r
  end.

Definition ByRoute (route : string) (rl : RateLimiter) : RateLimitStrategy := fun r =>
  let '(k, evs) := ByIP rl r in ("route:" +:+ route +:+ ":" +:+ k, evs).

Fixpoint composite_from (i : nat) (strategies : list RateLimitStrategy)
         (r : Request) (key : string) : string * list SecurityRecord :=
  match strategies with
  | [] => (key, [])
  | strategy :: rest =>
      let key := match i with O => key | S _ => key +:+ ":" end in
      let '(k, evs) := strategy r in
      let '(key', evs') := composite_from (S i) rest r (key +:+ k) in
      (key', evs ++ evs')
  end.

Definition Composite (strategies : list RateLimitStrategy) : RateLimitStrategy :=
  fun r => composite_from 0 strategies r "".

(** What the loop of [Composite] appends for the strategies after the first. *)
Fixpoint tail_keys (strategies : list RateLimitStrategy) (r : Request) : string :=
  match strategies with
  | [] => ""
  | strategy :: rest => ":" +:+ fst (strategy r) +:+ tail_keys rest r
  end.

Section Limit.
Context {World : Type}.

(** What the handler needs from outside. *)
Record LimitEnv := {
  execute_allow : string -> RateLimit -> World -> (Result + ExecError) * World;
    (* rl.circuitBreaker.Execute(func() { return rl.limiter.Allow(ctx, key, limit) }) *)
  time_Now : World -> Z;             (* time.Now(), in nanoseconds since the epoch *)
  Duration_String : Z -> string      (* time.Duration.String *)
}.

Definition Handler := ResponseWriter -> Request -> World -> ResponseWriter * World.

(** The key under which [Limit] asks the store, and the limit it asks about. *)
Definition store_key (rule : RateLimitRule) (r : Request) : string :=
  let key := fst (Strategy rule r) in
  "ratelimit:" +:+ (if String.eqb key "" then "default" else key).

Definition store_limit (rule : RateLimitRule) : RateLimit :=
  {| Rate := Limit_ rule; Period := Window rule; Burst_ := Burst rule |}.

Record served := {
  response : ResponseWriter;
  after : World;
  passed_on : bool;     (* whether next.ServeHTTP ran, i.e. the request was let through *)
  security_log : list SecurityRecord
}.

Definition serve_next (next : Handler) (w : ResponseWriter) (r : Request)
           (st : World) (log : list SecurityRecord) : served :=
  let '(w', st') := next w r st in
  {| response := w'; after := st'; passed_on := true; security_log := log |}.

(** Failing open: the request is let through and not answered with 503. *)
Definition fails_open (o : served) : Prop :=
  passed_on o = true /\ Status (response o) <> Some StatusServiceUnavailable.

(** [int(d.Seconds())]: [Seconds] is [float64(d / Second) + float64(d % Second) / 1e9]. *)
Definition whole_seconds (d : Z) : Z :=
  Backoff.int64_of_float
    (Backoff.float_of_int64 (Z.quot d Second)
     + Backoff.float_of_int64 (Z.rem d Second) / 1e9)%float.

Definition Limit (rl : RateLimiter) (E : LimitEnv) (rule : RateLimitRule)
           (next : Handler) (w : ResponseWriter) (r : Request) (st : World) : served :=
  if negb (enabled rl) || negb (redis_attached rl) then serve_next next w r st []
  else
    let '(key, log0) := Strategy rule r in
    let key := if String.eqb key "" then "default" else key in
    let key := "ratelimit:" +:+ key in
    let limit := {| Rate := Limit_ rule; Period := Window rule; Burst_ := Burst rule |} in
    match execute_allow E key limit st with
    | (inr err, st1) =>
        let log1 :=
          match securityLogger rl with
          | Some sl =>
              LogEvent (Some sl) "circuit_breaker_open" SeverityHigh r
                (<["error" := Error_text err]> ∅)
          | None => []
          end in
        {| response := Http.Error w "Service temporarily unavailable"
                         StatusServiceUnavailable;
           after := st1; passed_on := false; security_log := log0 ++ log1 |}
    | (inl res, st1) =>
        let resetTime := time_Now E st1 + ResetAfter res in
        let w := set_header w "X-RateLimit-Limit" (Itoa (Limit_ rule)) in
        let w := set_header w "X-RateLimit-Remaining" (Itoa (Remaining res)) in
        let w := set_header w "X-RateLimit-Reset" (Itoa (resetTime / Second)) in
        if Allowed res =? 0 then
          let w := set_header w "Retry-After" (Itoa (whole_seconds (RetryAfter res))) in
          let log1 :=
            match securityLogger rl with
            | Some sl =>
                LogRateLimitExceeded (Some sl) r (Limit_ rule)
                  (Duration_String E (Window rule))
            | None => []
            end in
          {| response := Http.Error w "Rate limit exceeded" StatusTooManyRequests;
             after := st1; passed_on := false; security_log := log0 ++ log1 |}
        else serve_next next w r st1 log0
    end.

Definition GlobalLimit (rl : RateLimiter) (E : LimitEnv) (limit window burst : Z) :=
  Limit rl E {| Limit_ := limit; Window := window; Burst := burst; Strategy := ByIP rl |}.

Definition PerUserLimit (rl : RateLimiter) (E : LimitEnv) (limit window burst : Z) :=
  Limit rl E {| Limit_ := limit; Window := window; Burst := burst; Strategy := ByUser rl |}.

Definition PerRouteLimit (rl : RateLimiter) (E : LimitEnv) (route : string)
           (limit window burst : Z) :=
  Limit rl E {| Limit_ := limit; Window := window; Burst := burst;
                Strategy := ByRoute route rl |}.

(** ** real_ip.go *)

Definition rewrite_remote (r : Request) : Request :=
  let realIP := Get (ReqHeader r) "X-Real-IP" in
  if negb (String.eqb realIP "") then with_RemoteAddr r realIP
  else
    let forwarded := Get (ReqHeader r) "X-Forwarded-For" in
    if negb (String.eqb forwarded "") then
      match Split forwarded "," with
      | [] => r      (* len(ips) > 0 always holds *)
      | first :: _ =>
          let ip := TrimSpace first in
          match ParseIP ip with
          | Some _ => with_RemoteAddr r ip
          | None => r
          end
      end
    else r.

Definition RealIP (next : Handler) : Handler :=
  fun w r st => next w (rewrite_remote r) st.
End Limit.
End WithNet.

(** The request as a client sends it with one more header. *)
Definition with_header (r : Request) (key value : string) : Request :=
  {| RemoteAddr := RemoteAddr r; ReqHeader := Set_ (ReqHeader r) key value;
     Method := Method r; Path := Path r; ctx_user_id := ctx_user_id r |}.

(** The quota headers the limiter attaches. *)
Definition quota_headers : list string :=
  ["X-RateLimit-Limit"; "X-RateLimit-Remaining"; "X-RateLimit-Reset"; "Retry-After"].

(** Whether [string(rune(n))], the ["limit"] attribute of a
    rate-limit-exceeded record, differs from the decimal [strconv.Itoa(n)];
    and that for every [n] from 0 up to a bound. *)
Definition rune_is_not_decimal (n : Z) : bool :=
  negb (String.eqb (string_of_rune n) (Itoa n)).

Definition rune_never_decimal_upto (bound : Z) : bool :=
  forallb rune_is_not_decimal (seqZ 0 bound).

End Middleware.

(** * An instance of [GoNet]: the IPv4 fragment of Go's [net] package

    Dotted-quad addresses, [a.b.c.d/len] networks and [host:port] peers; it
    is what the examples run on. The properties below are stated for every
    instance of [GoNet]. *)

Module IPv4.

Import GoStrings.

Definition digit (c : ascii) : option Z :=
  let b := byte_of c in if (48 <=? b) && (b <=? 57) then Some (b - 48) else None.

Fixpoint decimal (acc : Z) (s : string) : option Z :=
  match s with
  | EmptyString => Some acc
  | String c s' =>
      match digit c with
      | Some d => decimal (10 * acc + d) s'
      | None => None
      end
  end.

(** A decimal number of one to three digits, without a leading zero, at most
    [bound]. *)
Definition number (bound : Z) (s : string) : option Z :=
  match s with
  | EmptyString => None
  | String c rest =>
      if (Ascii.eqb c "0" && negb (String.eqb rest "")) || (3 <? String.length s)%nat
      then None
      else match decimal 0 s with
           | Some n => if n <=? bound then Some n else None
           | None => None
           end
  end.

Definition parse_ip (s : string) : option Z :=
  match map (number 255) (Split s ".") with
  | [Some a; Some b; Some c; Some d] => Some (((a * 256 + b) * 256 + c) * 256 + d)
  | _ => None
  end.

Definition mask (len : Z) : Z := Z.shiftl (Z.ones len) (32 - len).

Definition parse_cidr (s : string) : option (Z * Z) :=
  match Split s "/" with
  | [addr; len] =>
      match parse_ip addr, number 32 len with
      | Some a, Some n => Some (Z.land a (mask n), n)
      | _, _ => None
      end
  | _ => None
  end.

Definition contains (n : Z * Z) (a : Z) : bool := Z.land a (mask (snd n)) =? fst n.

Definition has_byte (c : ascii) (s : string) : bool :=
  existsb (Ascii.eqb c) (list_ascii_of_string s).

(** [host:port] with a host free of colons and brackets. *)
Definition split_host_port (s : string) : option (string * string) :=
  match Split s ":" with
  | [host; port] =>
      if has_byte "[" host || has_byte "]" host then None else Some (host, port)
  | _ => None
  end.

#[export] Instance net : GoNet := {|
  IP := Z;
  IPNet := Z * Z;
  ParseIP := parse_ip;
  ParseCIDR := parse_cidr;
  Contains := contains;
  SplitHostPort := split_host_port
|}.

End IPv4.

(** * Circuit breaker

    The breaker itself is the third-party package [gobreaker]; the repository
    holds only the settings it is built from ([NewRateLimiter]). Its state
    machine is taken from section 4.4 of the specification, with
    [minimumRequestVolume] and [failureThresholdRatio] inside [ReadyToTrip],
    [openDuration = Timeout], [halfOpenTrialCount = MaxRequests] and the
    evaluation window [Interval]. *)

Module Breaker.

Import Gobreaker.

(** Modelled from the spec: the three states of the CircuitBreaker (the
    breaker implementation is not in the repository). *)
Inductive State := Closed | Open | HalfOpen.

(** Modelled from the spec: the attributes of a CircuitBreaker (the breaker
    implementation is not in the repository): rolling counters of the current
    evaluation window, [openedAt], and the configuration. *)
Record CircuitBreaker := {
  settings : Settings;
  state : State;
  counts : Counts;
  openedAt : Z;
  windowStart : Z
}.

(** Modelled from the spec: the counters of a fresh evaluation window (the
    breaker implementation is not in the repository). *)
Definition no_counts : Counts :=
  {| Requests := 0; TotalSuccesses := 0; TotalFailures := 0;
     ConsecutiveSuccesses := 0; ConsecutiveFailures := 0 |}.

(** Modelled from the spec: a breaker starts Closed with empty counters (the
    breaker implementation is not in the repository). *)
Definition NewCircuitBreaker (st : Settings) (now : Z) : CircuitBreaker :=
  {| settings := st; state := Closed; counts := no_counts; openedAt := 0;
     windowStart := now |}.

(** Modelled from the spec: recording one success or failure into the rolling
    counters (the breaker implementation is not in the repository). *)
Definition record_call (c : Counts) (ok : bool) : Counts :=
  if ok then
    {| Requests := Requests c + 1;
       TotalSuccesses := TotalSuccesses c + 1;
       TotalFailures := TotalFailures c;
       ConsecutiveSuccesses := ConsecutiveSuccesses c + 1;
       ConsecutiveFailures := 0 |}
  else
    {| Requests := Requests c + 1;
       TotalSuccesses := TotalSuccesses c;
       TotalFailures := TotalFailures c + 1;
       ConsecutiveSuccesses := 0;
       ConsecutiveFailures := ConsecutiveFailures c + 1 |}.

(** Modelled from the spec: a breaker after a transition, its settings kept
    (the breaker implementation is not in the repository). *)
Definition with_state (cb : CircuitBreaker) (s : State) (c : Counts)
           (opened start : Z) : CircuitBreaker :=
  {| settings := settings cb; state := s; counts := c; openedAt := opened;
     windowStart := start |}.

(** Modelled from the spec: the transitions that time alone causes, taken
    before a call is processed (the breaker implementation is not in the
    repository). Open becomes HalfOpen once [now - openedAt >= openDuration];
    a Closed breaker starts a new evaluation window once the current one has
    lasted [Interval]. *)
Definition current (cb : CircuitBreaker) (now : Z) : CircuitBreaker :=
  match state cb with
  | Open =>
      if Timeout (settings cb) <=? now - openedAt cb
      then with_state cb HalfOpen no_counts (openedAt cb) now
      else cb
  | Closed =>
      if (0 <? Interval (settings cb)) && (Interval (settings cb) <=? now - windowStart cb)
      then with_state cb Closed no_counts (openedAt cb) now
      else cb
  | HalfOpen => cb
  end.

(** Modelled from the spec: a call counts as a success when the operation
    returns no error (the breaker implementation is not in the repository). *)
Definition is_ok {A} (r : A + ExecError) : bool :=
  match r with inl _ => true | inr _ => false end.

Section Execute.
Context {A World : Type}.

(** Modelled from the spec: [execute(operation)] of section 4.4 (the breaker
    implementation is not in the repository).
    Closed: the operation runs and its outcome is recorded; if the counters
    then satisfy the trip condition the breaker opens, recording
    [openedAt = now].
    Open: the call is rejected with the breaker-open error and the operation
    does not run.
    HalfOpen: up to [halfOpenTrialCount] trial calls run; a failure reopens
    the breaker, [halfOpenTrialCount] consecutive successes close it with
    the counters reset. *)
Definition execute (cb : CircuitBreaker) (now : Z)
           (operation : World -> (A + ExecError) * World) (w : World)
  : CircuitBreaker * (A + ExecError) * World :=
  let cb := current cb now in
  match state cb with
  | Open => (cb, inr ErrOpenState, w)
  | Closed =>
      let '(r, w') := operation w in
      let c := record_call (counts cb) (is_ok r) in
      if ReadyToTrip (settings cb) c
      then (with_state cb Open c now (windowStart cb), r, w')
      else (with_state cb Closed c (openedAt cb) (windowStart cb), r, w')
  | HalfOpen =>
      if MaxRequests (settings cb) <=? Requests (counts cb)
      then (cb, inr ErrTooManyRequests, w)
      else
        let '(r, w') := operation w in
        let c := record_call (counts cb) (is_ok r) in
        if is_ok r then
          if MaxRequests (settings cb) <=? ConsecutiveSuccesses c
          then (with_state cb Closed no_counts (openedAt cb) now, r, w')
          else (with_state cb HalfOpen c (openedAt cb) (windowStart cb), r, w')
        else (with_state cb Open c now (windowStart cb), r, w')
  end.
End Execute.

End Breaker.

(** * Scenarios

    Concrete operations, contexts and requests on which the properties are
    exercised. *)

Module Scenario.

Import Retry Backoff.

(** The world counts the invocations made so far; the error of an invocation
    carries its index. *)
Definition always_failing : nat -> option (error nat) * nat :=
  fun w => (Some (EOp w), S w).

(** Fails on the first [k] invocations, then succeeds. *)
Definition failing_first (k : nat) : nat -> option (error nat) * nat :=
  fun w => (if (w <? k)%nat then Some (EOp w) else None, S w).

Definition live_env (op : nat -> option (error nat) * nat) : Env nat nat :=
  {| fn := op; ctx_Err := fun _ => None; select_sleep := fun _ w => (None, w) |}.

(** The context is cancelled while [Do] sleeps before the retry. *)
Definition cancelled_in_sleep_env : Env nat nat :=
  {| fn := always_failing;
     ctx_Err := fun _ => None;
     select_sleep := fun _ w => (Some Canceled, w) |}.


(** A stand-in for [math.Pow] on whole exponents [y >= 0]: the product of
    [y] copies of [x], which is [x ** y] wherever the powers are binary64
    numbers, and 1 for [y = 0]. Other exponents are not needed here. *)
Definition pow_whole (x y : float) : float :=
  Z.iter (int64_of_float y) (fun p => (p * x)%float) 1%float.

Definition doubling (jitter : bool) : ExponentialBackoff :=
  NewExponentialBackoff
    {| Min := 1 * Second; Max := 30 * Second; Factor := 2%float; Jitter := jitter |}.

Definition linear_strategy (l : LinearBackoff) : Strategy nat :=
  {| NextDelay := fun attempt w => (Linear.NextDelay l attempt, w) |}.

Definition one_second_steps : LinearBackoff := NewLinearBackoff Second (30 * Second).


Definition config (n : Z) : Config nat nat :=
  {| MaxAttempts := n;
     Strategy_ := Some (linear_strategy one_second_steps);
     OnRetry := None;
     Logger := None |}.


Import Http Gobreaker Middleware IPv4.

(** A limiter in front of a store, trusting the proxies of [10.0.0.0/8], with
    a security logger attached. *)
Definition limiter : RateLimiter :=
  NewRateLimiter true true ["10.0.0.0/8"] (Some {| logger_attached := true |}).

Definition request (peer : string) (headers : list (string * string)) : Request :=
  {| RemoteAddr := peer;
     ReqHeader := fold_right (fun kv h => Set_ h (fst kv) (snd kv)) ∅ headers;
     Method := "GET"; Path := "/test"; ctx_user_id := None |}.

Definition blank : ResponseWriter := {| RespHeader := ∅; Status := None; Body := "" |}.

(** The protected handler answers 200 and counts itself in the world. *)
Definition ok_handler : ResponseWriter -> Request -> nat -> ResponseWriter * nat :=
  fun w _ st => (WriteHeader w 200, S st).

(** A store behind an open breaker, a store that errors, and a store that
    grants every request. *)
Definition env_of (answer : Result + ExecError) : LimitEnv (World := nat) :=
  {| execute_allow := fun _ _ st => (answer, st);
     time_Now := fun _ => 1700000000 * Second;
     Duration_String := fun _ => "1m0s" |}.

Definition breaker_open_env := env_of (inr ErrOpenState).
Definition store_down_env := env_of (inr (CallError "dial tcp: connection refused")).
Definition granting_env :=
  env_of (inl {| Allowed := 1; Remaining := 9; RetryAfter := -1; ResetAfter := 6 * Second |}).

Definition global_rule : RateLimitRule :=
  {| Limit_ := 10; Window := 60 * Second; Burst := 15; Strategy := ByIP limiter |}.

(** A store that reports the quota as used up, to be asked again in 42 s. *)
Definition denying_env :=
  env_of (inl {| Allowed := 0; Remaining := 0; RetryAfter := 42 * Second;
                 ResetAfter := 60 * Second |}).

(** A store that knows one key only. *)
Definition keyed_env (key : string) (answer : Result + ExecError) : LimitEnv (World := nat) :=
  {| execute_allow := fun k _ st =>
       (if String.eqb k key then answer else inr (CallError "unknown key"), st);
     time_Now := fun _ => 1700000000 * Second;
     Duration_String := fun _ => "1m0s" |}.

(** The request of an authenticated user. *)
Definition with_user (r : Request) (uid : string) : Request :=
  {| RemoteAddr := RemoteAddr r; ReqHeader := ReqHeader r; Method := Method r;
     Path := Path r; ctx_user_id := Some uid |}.

(** Limiters without a security logger, without a store, and with no CIDR
    that parses. *)
Definition silent_limiter : RateLimiter := NewRateLimiter true true ["10.0.0.0/8"] None.

Definition storeless_limiter : RateLimiter :=
  NewRateLimiter false true ["10.0.0.0/8"] (Some {| logger_attached := true |}).

Definition trusting_nobody : RateLimiter :=
  NewRateLimiter true true ["10.0.0.0"; "ten/8"] (Some {| logger_attached := true |}).


Import Breaker.

(** The breaker of the rate limiter, created at time 0. *)
Definition limiter_breaker : CircuitBreaker :=
  NewCircuitBreaker (breaker_settings limiter) 0.

(** A quota-store call that counts itself in the world and succeeds or fails
    as told. *)
Definition store_call (ok : bool) : nat -> (Result + ExecError) * nat :=
  fun st =>
    (if ok then inl {| Allowed := 1; Remaining := 9; RetryAfter := -1;
                       ResetAfter := 6 * Second |}
     else inr (CallError "i/o timeout"),
     S st).

(** Calls made one after the other, each at its time and with its outcome. *)
Fixpoint run_calls (cb : CircuitBreaker) (calls : list (Z * bool)) (st : nat)
  : CircuitBreaker * nat :=
  match calls with
  | [] => (cb, st)
  | (now, ok) :: rest =>
      let '(cb', _, st') := execute cb now (store_call ok) st in
      run_calls cb' rest st'
  end.


Import RetryConfig.

(** Configurations as [LoadConfig] returns them: the defaults with another
    backoff type. *)
Definition loaded (type : string) (attempts : Z) : RetryConfig :=
  {| rc_MaxAttempts := attempts;
     rc_Backoff :=
       {| Type_ := type; bc_Min := 1 * Second; bc_Max := 30 * Second;
          bc_Factor := 2%float; bc_Jitter := true; Delay := 1 * Second;
          Increment := 1 * Second |} |}.

(** A random source that always draws 0.5, so that the jitter factor is 1. *)
Definition half : nat -> float * nat := fun w => (0.5%float, w).

End Scenario.

(** * Properties *)

Lemma wrap64_id z : in_int64 z -> wrap64 z = z.
Proof.
  unfold in_int64, wrap64, MinInt64, MaxInt64. intros H.
  rewrite Z.mod_small by lia. lia.
Qed.

(** ** retry.Do *)

Module RetryFacts.

Import Retry.

Section Facts.
Context {OpErr World : Type}.

Local Abbreviation event := (event OpErr).
Local Abbreviation outcome := (outcome OpErr World).

Implicit Types (c : Config OpErr World) (s : Strategy World) (E : Env OpErr World).
Implicit Types (tr pre post : list event) (w : World).

Lemma calls_app tr tr' : calls (tr ++ tr') = calls tr + calls tr'.
Proof.
  unfold calls. rewrite List.filter_app, length_app. lia.
Qed.

Lemma last_call_app tr tr' :
  last_call (tr ++ tr') =
  match last_call tr' with Some o => Some o | None => last_call tr end.
Proof.
  induction tr as [|e tr IH]; simpl.
  - destruct (last_call tr'); reflexivity.
  - rewrite IH. destruct (last_call tr'); reflexivity.
Qed.



Lemma hook_shape c attempt err w :
  forall w1 hook,
    match OnRetry c with
    | Some f => (f attempt err w, [EvOnRetry attempt err])
    | None => (w, [])
    end = (w1, hook) ->
    calls hook = 0 /\ last_call hook = None /\ ~ In (EvCall None) hook.
Proof.
  intros w1 hook Hh. destruct (OnRetry c); inversion Hh; subst; simpl;
    (split; [reflexivity | split; [reflexivity | ]]); intros Hin; simpl in Hin;
    intuition discriminate.
Qed.


Ltac open_body E Hctx Hh Hd Hs Hf :=
  cbn [retry_loop];
  destruct (ctx_Err E _) as [ce|] eqn:Hctx;
  [ | match goal with
      | |- context [match OnRetry ?c with _ => _ end] =>
          destruct (match OnRetry c with
                    | Some f => _
                    | None => _
                    end) as [w1 hook] eqn:Hh
      end;
      match goal with
      | |- context [NextDelay ?s ?a ?w] => destruct (NextDelay s a w) as [delay w2] eqn:Hd
      end;
      match goal with
      | |- context [select_sleep E ?d ?w] =>
          destruct (select_sleep E d w) as [[ce|] w3] eqn:Hs
      end;
      [ | match goal with
          | |- context [fn E ?w] => destruct (fn E w) as [[e|] w4] eqn:Hf
          end ] ].

Ltac count_calls :=
  rewrite ?calls_app; unfold calls in *; cbn [List.filter is_call length] in *; lia.


Lemma retry_loop_exhausts c s E n :
  always_fails E -> never_cancelled E ->
  forall attempt err w,
    let o := retry_loop c s E n attempt err w in
    calls (trace o) = Z.of_nat n
    /\ exists last,
        ret o = Some (exhausted_error (MaxAttempts c) last)
        /\ last_call (trace o) = match n with O => None | S _ => Some (Some last) end
        /\ (n = O -> last = err).
Proof.
  intros Hfail [Hctx0 Hsel0].
  induction n as [|n IH]; intros attempt err w; cbv zeta.
  - cbn [retry_loop trace ret]. split; [count_calls | ].
    exists err. repeat split; reflexivity.
  - open_body E Hctx Hh Hd Hs Hf; cbn [trace ret prepend].
    + rewrite Hctx0 in Hctx. discriminate.
    + pose proof (Hsel0 delay w2) as Hnone. rewrite Hs in Hnone. discriminate.
    + destruct (hook_shape _ _ _ _ _ _ Hh) as (Hc & _ & _).
      destruct (IH (attempt + 1) e w4) as (IHc & last & IHr & IHl & IH0).
      split; [rewrite !calls_app, Hc; count_calls | ].
      exists last. split; [exact IHr | ]. split; [ | discriminate].
      rewrite last_call_app, IHl. destruct n as [|n'].
      * rewrite last_call_app. cbn. rewrite (IH0 eq_refl). reflexivity.
      * reflexivity.
    + destruct (Hfail w3) as [e He]. rewrite Hf in He. discriminate.
Qed.


(** How [Do] reaches the loop, and how the loop goes round: every iteration
    of a run of [Do] is [retry_loop] at some [S n], [attempt], [err] and [w]. *)
Lemma Do_enters_loop c s E w err w1 :
  0 < MaxAttempts c -> Strategy_ c = Some s -> fn E w = (Some err, w1) ->
  Do c E w =
  prepend [EvCall (Some err);
           EvLog (the_logger c) Debug "Starting retry attempts"
             [("max_attempts", AInt (MaxAttempts c)); ("error", AErrText err)]]
          (retry_loop c s E (Z.to_nat (MaxAttempts c)) 0 err w1).
Proof.
  intros Hpos Hs Hf. unfold Do, Validate. rewrite Hs, Hf.
  destruct (Z.ltb_spec (MaxAttempts c) 0); [lia | ].
  destruct (Z.eqb_spec (MaxAttempts c) 0); [lia | reflexivity].
Qed.

Lemma retry_loop_goes_round c s E n attempt err w w3 e w4 :
  ctx_Err E w = None ->
  select_sleep E (fst (at_select c s attempt err w)) (snd (at_select c s attempt err w))
  = (None, w3) ->
  fn E w3 = (Some e, w4) ->
  exists evs,
    retry_loop c s E (S n) attempt err w
    = prepend evs (retry_loop c s E n (attempt + 1) e w4)
    /\ calls evs = 1.
Proof.
  intros Hctx Hsel Hf. unfold at_select in Hsel. cbn [retry_loop]. rewrite Hctx.
  destruct (OnRetry c) as [f|];
    destruct (NextDelay s attempt _) as [delay w2]; cbn [fst snd] in Hsel;
    rewrite Hsel, Hf; eexists; (split; [reflexivity | count_calls]).
Qed.


End Facts.

Import Scenario.

Lemma always_failing_fails : always_fails (live_env always_failing).
Proof. intros w. exists (EOp w). reflexivity. Qed.

Lemma live_env_never_cancelled op : never_cancelled (live_env op).
Proof. split; intros; reflexivity. Qed.


(** [MaxAttempts = 3], two failures, then success: three invocations, nil. *)
Example Do_fails_twice_then_succeeds :
  let o := Do (config 3) (live_env (failing_first 2)) 0%nat in
  ret o = None /\ calls (trace o) = 3 /\ world o = 3%nat.
Proof. vm_compute. repeat split; reflexivity. Qed.

(** [MaxAttempts = 0]: one invocation, its error handed back as it is. *)
Example Do_without_retries :
  let o := Do (config 0) (live_env always_failing) 0%nat in
  ret o = Some (EOp 0%nat) /\ calls (trace o) = 1.
Proof. vm_compute. repeat split; reflexivity. Qed.


(** The same cancellation seen from [Do]: one invocation, then the
    cancellation error. *)
Example Do_cancelled_in_sleep :
  let o := Do (config 3) cancelled_in_sleep_env 0%nat in
  ret o = Some (cancelled_error Canceled "context cancelled during retry delay" 0 3)
  /\ calls (trace o) = 1.
Proof. vm_compute. repeat split; reflexivity. Qed.

End RetryFacts.

(** ** Backoff strategies *)

Module BackoffFacts.

Import Backoff.

(** *** binary64 comparisons *)


Lemma SFcompare_antisym x y c :
  SFcompare x y = Some c -> SFcompare y x = Some (CompOpp c).
Proof.
  destruct x as [sx|sx| |sx mx ex], y as [sy|sy| |sy my ey]; cbn;
    try discriminate;
    try (destruct sx; intros [= <-]; reflexivity);
    try (destruct sy; intros [= <-]; reflexivity);
    try (destruct sx, sy; intros [= <-]; reflexivity).
  destruct sx, sy; intros [= <-]; try reflexivity;
    rewrite (Z.compare_antisym ex ey);
    destruct (ex ?= ey) eqn:He; cbn; try reflexivity;
    rewrite (Pos.compare_cont_antisym mx my Eq); reflexivity.
Qed.

Lemma not_nan_spec (f : float) : PrimFloat.is_nan f = false -> Prim2SF f <> S754_nan.
Proof.
  unfold PrimFloat.is_nan. rewrite FloatAxioms.eqb_spec. intros Heq Hnan.
  rewrite Hnan in Heq. discriminate Heq.
Qed.


(** For numbers, "not at most" is "above"; NaN is neither. *)
Lemma float_not_le_gt (f g : float) :
  PrimFloat.is_nan f = false -> PrimFloat.is_nan g = false ->
  (f <=? g)%float = false -> (g <? f)%float = true.
Proof.
  intros Hf Hg. apply not_nan_spec in Hf, Hg.
  rewrite leb_spec, ltb_spec. unfold SFleb, SFltb.
  destruct (SFcompare (Prim2SF f) (Prim2SF g)) as [c|] eqn:Hc.
  - rewrite (SFcompare_antisym _ _ _ Hc). destruct c; cbn; congruence.
  - destruct (Prim2SF f), (Prim2SF g); cbn in Hc; try discriminate; congruence.
Qed.

(** *** Constructors *)

Lemma NewLinearBackoff_valid increment max : lin_valid (NewLinearBackoff increment max).
Proof.
  unfold lin_valid, NewLinearBackoff, Second. cbn.
  destruct (Z.leb_spec increment 0);
    match goal with |- context [max <? ?i] => destruct (Z.ltb_spec max i) end; lia.
Qed.

Lemma NewExponentialBackoff_delays config :
  let e := NewExponentialBackoff config in 0 < e_min e /\ e_min e <= e_max e.
Proof.
  unfold NewExponentialBackoff, Second. cbn.
  destruct (Z.leb_spec (Min config) 0);
    match goal with |- context [Max config <? ?i] => destruct (Z.ltb_spec (Max config) i) end;
    lia.
Qed.

Lemma NewExponentialBackoff_valid config :
  PrimFloat.is_nan (Factor config) = false -> exp_valid (NewExponentialBackoff config).
Proof.
  intros Hnum. pose proof (NewExponentialBackoff_delays config) as (Hmin & Hmax).
  split; [exact Hmin | split; [exact Hmax | ]].
  unfold NewExponentialBackoff. cbn [e_factor].
  destruct (Factor config <=? 1)%float eqn:Hle; [reflexivity | ].
  apply float_not_le_gt; [exact Hnum | reflexivity | exact Hle].
Qed.

(** C10. [NewExponentialBackoff] and [NewLinearBackoff] are total, and every
    linear strategy they build satisfies [0 < increment <= max]; every
    exponential strategy satisfies [0 < min <= max]. The growth factor is
    [> 1.0] whenever the configured factor is a number, but a NaN factor gets
    past the test [Factor <= 1.0] and is kept: the strategy built from
    [Min = 1s, Max = 30s, Factor = NaN] has a NaN factor, so it does not
    satisfy [factor > 1.0]. *)
Theorem NewExponentialBackoff_keeps_NaN :
  let e := NewExponentialBackoff
             {| Min := 1 * Second; Max := 30 * Second; Factor := PrimFloat.nan;
                Jitter := false |} in
  PrimFloat.is_nan (e_factor e) = true
  /\ (1 <? e_factor e)%float = false
  /\ ~ exp_valid e
  /\ (forall config, PrimFloat.is_nan (Factor config) = false ->
        exp_valid (NewExponentialBackoff config))
  /\ (forall increment max, lin_valid (NewLinearBackoff increment max)).
Proof.
  cbv zeta. split; [reflexivity | ]. split; [reflexivity | ]. split.
  - intros (_ & _ & Hfactor). vm_compute in Hfactor. discriminate Hfactor.
  - split; [exact NewExponentialBackoff_valid | exact NewLinearBackoff_valid].
Qed.

(** *** Exponential backoff *)

Section Exponential.
Variable Pow : float -> float -> float.


Lemma exponential_without_jitter e attempt rnd :
  e_jitter e = false ->
  Exponential.NextDelay Pow e attempt rnd = int64_of_float (capped_delay Pow e attempt).
Proof. intros Hj. unfold Exponential.NextDelay. rewrite Hj. reflexivity. Qed.


End Exponential.

(** The default doubling strategy on [pow_whole], without jitter: 1s, 2s, 4s,
    8s, 16s, then the cap of 30s; with jitter and the draw 0.75, attempt 5
    gives 37.5s. *)
Example doubling_delays :
  map (fun attempt => Exponential.NextDelay Scenario.pow_whole (Scenario.doubling false) attempt 0)
      [0; 1; 2; 3; 4; 5; 6; 60; 2000]
  = map (fun s => s * Second) [1; 2; 4; 8; 16; 30; 30; 30; 30].
Proof. vm_compute. reflexivity. Qed.


(** *** Linear backoff *)

(** Where no 64-bit operation overflows, the linear delay is the formula. *)
Lemma linear_delay_exact l attempt :
  0 <= attempt ->
  in_int64 (attempt + 1) ->
  in_int64 (l_increment l * (attempt + 1)) ->
  Linear.NextDelay l attempt = Z.min (l_increment l * (attempt + 1)) (l_max l).
Proof.
  intros Hpos Hinc Hprod. unfold Linear.NextDelay.
  destruct (Z.ltb_spec attempt 0) as [Hneg | _]; [lia | ].
  rewrite (wrap64_id (attempt + 1)) by exact Hinc.
  rewrite wrap64_id by exact Hprod.
  destruct (Z.ltb_spec (l_max l) (l_increment l * (attempt + 1))); lia.
Qed.

(** C8. The linear delay is [increment * (attempt + 1)] capped at [max] as
    long as the product fits 64 bits. It is computed in [int64], though: with
    [increment = 1s] and [max = 30s], attempt 9223372036 makes the product
    wrap around to a negative number, which passes the cap and is returned,
    where the formula gives 30s. *)
Theorem linear_delay_wraps_around :
  let l := NewLinearBackoff (1 * Second) (30 * Second) in
  let attempt := 9223372036 in
  Linear.NextDelay l attempt = -9223372036709551616
  /\ Z.min (l_increment l * (attempt + 1)) (l_max l) = 30 * Second
  /\ Linear.NextDelay l attempt <> Z.min (l_increment l * (attempt + 1)) (l_max l).
Proof.
  cbv zeta. split; [vm_compute; reflexivity | ].
  split; [vm_compute; reflexivity | ].
  vm_compute. discriminate.
Qed.

Lemma linear_delay_exact_witness :
  Linear.NextDelay Scenario.one_second_steps 4 = 5 * Second
  /\ Linear.NextDelay Scenario.one_second_steps 100 = 30 * Second.
Proof.
  split.
  - rewrite linear_delay_exact; [reflexivity | lia | | ];
      vm_compute; split; discriminate.
  - rewrite linear_delay_exact; [reflexivity | lia | | ];
      vm_compute; split; discriminate.
Defined.

(** The delays the repository's tests expect of the strategies built by
    [CreateStrategy]. *)
Example delays_of_the_tests :
  Exponential.NextDelay Scenario.pow_whole
    (NewExponentialBackoff
       {| Min := 500 * Millisecond; Max := 10 * Second; Factor := 2.5%float;
          Jitter := false |}) 0 0
  = 500 * Millisecond
  /\ Constant.NextDelay (NewConstantBackoff (3 * Second)) 0 = 3 * Second
  /\ Linear.NextDelay (NewLinearBackoff (2 * Second) (20 * Second)) 0 = 2 * Second
  /\ Linear.NextDelay (NewLinearBackoff (2 * Second) (20 * Second)) 1 = 4 * Second.
Proof. vm_compute. repeat split; reflexivity. Qed.

(** Constant backoff ignores the attempt number. *)
Lemma constant_delay_constant c a b : Constant.NextDelay c a = Constant.NextDelay c b.
Proof. reflexivity. Qed.

End BackoffFacts.

(** ** Client identity and the rate limiter *)

Module MiddlewareFacts.

Import GoStrings Http Gobreaker Middleware.

(** *** strings.Split *)

Lemma Split_nonempty s sep : Split s sep <> [].
Proof.
  destruct s as [|c s]; cbn; [discriminate | ].
  destruct (Ascii.eqb c sep); [discriminate | ].
  destruct (Split s sep); discriminate.
Qed.


(** *** strings.TrimSpace *)

(** [trim_front] removes a prefix, and what it leaves does not start with an
    ASCII white-space byte. *)
Lemma trim_front_suffix sp2 sp3 l :
  exists dropped, l = dropped ++ trim_front sp2 sp3 l.
Proof.
  remember (length l) as n eqn:Hn. revert l Hn.
  induction n as [n IH] using (well_founded_induction Nat.lt_wf_0). intros l ->.
  destruct l as [|c1 l1]; [exists []; reflexivity | ]. cbn [trim_front].
  destruct (space1 c1).
  { destruct (IH (length l1) ltac:(cbn; lia) l1 eq_refl) as (d & Hd).
    exists (c1 :: d). cbn. f_equal. exact Hd. }
  destruct l1 as [|c2 l2]; [exists []; reflexivity | ].
  destruct (sp2 c1 c2).
  { destruct (IH (length l2) ltac:(cbn; lia) l2 eq_refl) as (d & Hd).
    exists (c1 :: c2 :: d). cbn. do 2 f_equal. exact Hd. }
  destruct l2 as [|c3 l3]; [exists []; reflexivity | ].
  destruct (sp3 c1 c2 c3); [ | exists []; reflexivity].
  destruct (IH (length l3) ltac:(cbn; lia) l3 eq_refl) as (d & Hd).
  exists (c1 :: c2 :: c3 :: d). cbn. do 3 f_equal. exact Hd.
Qed.

Lemma trim_front_head sp2 sp3 l c rest :
  trim_front sp2 sp3 l = c :: rest -> space1 c = false.
Proof.
  remember (length l) as n eqn:Hn. revert l Hn.
  induction n as [n IH] using (well_founded_induction Nat.lt_wf_0). intros l ->.
  destruct l as [|c1 l1]; [discriminate | ]. cbn [trim_front].
  destruct (space1 c1) eqn:H1.
  { apply (IH (length l1)); [cbn; lia | reflexivity]. }
  destruct l1 as [|c2 l2]; [intros [= <- _]; exact H1 | ].
  destruct (sp2 c1 c2).
  { apply (IH (length l2)); [cbn; lia | reflexivity]. }
  destruct l2 as [|c3 l3]; [intros [= <- _]; exact H1 | ].
  destruct (sp3 c1 c2 c3); [ | intros [= <- _]; exact H1].
  apply (IH (length l3)); [cbn; lia | reflexivity].
Qed.

(** [TrimSpace s] is [s] without a prefix and a suffix, and neither starts
    nor ends with an ASCII white-space byte. *)
Lemma TrimSpace_trims s :
  (exists before after_,
     list_ascii_of_string s = before ++ list_ascii_of_string (TrimSpace s) ++ after_)
  /\ (forall c rest, list_ascii_of_string (TrimSpace s) = c :: rest -> space1 c = false)
  /\ (forall c rest, rev (list_ascii_of_string (TrimSpace s)) = c :: rest -> space1 c = false).
Proof.
  unfold TrimSpace. rewrite list_ascii_of_string_of_list_ascii.
  set (front := trim_front space2 space3 (list_ascii_of_string s)).
  set (back := trim_front _ _ (rev front)).
  destruct (trim_front_suffix space2 space3 (list_ascii_of_string s)) as (before & Hb).
  destruct (trim_front_suffix (fun a b => space2 b a) (fun a b c => space3 c b a) (rev front))
    as (dropped & Hd).
  fold front in Hb. fold back in Hd. split; [ | split].
  - exists before, (rev dropped). rewrite Hb at 1. f_equal.
    rewrite <- (rev_involutive front), Hd, rev_app_distr. reflexivity.
  - intros c rest Hhead.
    assert (Hfront : exists tail, front = c :: tail).
    { rewrite <- (rev_involutive front), Hd, rev_app_distr, Hhead. eexists. reflexivity. }
    destruct Hfront as (tail & Hfront).
    exact (trim_front_head _ _ _ _ _ Hfront).
  - intros c rest Hlast. rewrite rev_involutive in Hlast.
    exact (trim_front_head _ _ _ _ _ Hlast).
Qed.

Section WithNet.
Context `{GoNet}.

Implicit Types (rl : RateLimiter) (r : Request).


Lemma isTrustedProxy_spec rl peer :
  isTrustedProxy rl peer = true <-> in_trusted_range rl peer.
Proof.
  unfold isTrustedProxy, in_trusted_range. split.
  - destruct (ParseIP peer) as [ip|]; [ | discriminate].
    intros Hex. apply existsb_exists in Hex as (ipnet & Hin & Hc).
    exists ip, ipnet. repeat split; assumption.
  - intros (ip & ipnet & -> & Hin & Hc). apply existsb_exists.
    exists ipnet. split; assumption.
Qed.

Lemma nonempty_eqb (s : string) : s <> "" -> negb (String.eqb s "") = true.
Proof.
  intros Hs. destruct (String.eqb_spec s ""); [contradiction | reflexivity].
Qed.

Lemma empty_eqb (s : string) : s = "" -> negb (String.eqb s "") = false.
Proof. intros ->. reflexivity. Qed.

(** *** The handler built by [Limit] *)

Section Handler.
Context {World : Type}.

Implicit Types (E : LimitEnv (World := World)) (rule : RateLimitRule).
Implicit Types (next : Handler (World := World)) (w : ResponseWriter) (st : World).

(** The guard at the head of the handler: a disabled limiter, or one without a
    store, lets every request through untouched. *)
Lemma Limit_without_store rl E rule next w r st :
  enabled rl = false \/ redis_attached rl = false ->
  passed_on (Limit rl E rule next w r st) = true
  /\ response (Limit rl E rule next w r st) = fst (next w r st)
  /\ security_log (Limit rl E rule next w r st) = [].
Proof.
  intros Hoff. unfold Limit.
  assert (Hguard : negb (enabled rl) || negb (redis_attached rl) = true)
    by (destruct Hoff as [-> | ->]; [reflexivity | apply orb_true_r]).
  rewrite Hguard. unfold serve_next. destruct (next w r st). repeat split; reflexivity.
Qed.

Lemma Limit_reaches_store rl E rule next w r st :
  enabled rl = true -> redis_attached rl = true ->
  Limit rl E rule next w r st =
  match execute_allow E (store_key rule r) (store_limit rule) st with
  | (inr err, st1) =>
      {| response := Http.Error w "Service temporarily unavailable" StatusServiceUnavailable;
         after := st1; passed_on := false;
         security_log :=
           snd (Strategy rule r)
           ++ LogEvent (securityLogger rl) "circuit_breaker_open" SeverityHigh r
                (<["error" := Error_text err]> ∅) |}
  | (inl res, st1) =>
      let w1 :=
        set_header
          (set_header (set_header w "X-RateLimit-Limit" (Itoa (Limit_ rule)))
             "X-RateLimit-Remaining" (Itoa (Remaining res)))
          "X-RateLimit-Reset" (Itoa ((time_Now E st1 + ResetAfter res) / Second)) in
      if Allowed res =? 0 then
        {| response :=
             Http.Error (set_header w1 "Retry-After" (Itoa (whole_seconds (RetryAfter res))))
               "Rate limit exceeded" StatusTooManyRequests;
           after := st1; passed_on := false;
           security_log :=
             snd (Strategy rule r)
             ++ LogRateLimitExceeded (securityLogger rl) r (Limit_ rule)
                  (Duration_String E (Window rule)) |}
      else serve_next next w1 r st1 (snd (Strategy rule r))
  end.
Proof.
  intros Hen Hre. unfold Limit, store_key, store_limit. rewrite Hen, Hre. cbn [negb orb].
  destruct (Strategy rule r) as [key log0]. cbn [fst snd].
  destruct (execute_allow E _ _ st) as [[res | err] st1].
  - destruct (Allowed res =? 0); [ | reflexivity].
    destruct (securityLogger rl); reflexivity.
  - destruct (securityLogger rl); reflexivity.
Qed.


Lemma Error_keeps_quota_headers w msg code h :
  In h quota_headers -> Get (RespHeader (Http.Error w msg code)) h = Get (RespHeader w) h.
Proof.
  intros Hin. unfold Http.Error, Write, WriteHeader, set_header, del_header, Set_, Del, Get.
  cbn [RespHeader].
  assert (Hk : CanonicalMIMEHeaderKey h <> "X-Content-Type-Options"
               /\ CanonicalMIMEHeaderKey h <> "Content-Type"
               /\ CanonicalMIMEHeaderKey h <> "Content-Length").
  { cbn in Hin. destruct Hin as [<- | [<- | [<- | [<- | []]]]]; vm_compute;
      repeat split; discriminate. }
  destruct Hk as (H1 & H2 & H3).
  change (CanonicalMIMEHeaderKey "X-Content-Type-Options") with "X-Content-Type-Options".
  change (CanonicalMIMEHeaderKey "Content-Type") with "Content-Type".
  change (CanonicalMIMEHeaderKey "Content-Length") with "Content-Length".
  rewrite lookup_insert_ne by congruence.
  rewrite lookup_insert_ne by congruence.
  rewrite lookup_delete_ne by congruence.
  reflexivity.
Qed.

(** C1, as the code has it. With the limiter enabled and a store attached,
    when the call through the circuit breaker returns an error (the breaker
    rejects it, or the store call itself fails) the request is turned away
    with 503 Service Unavailable: the next handler does not run, the quota
    headers are left as they were, and the security logger, when one with a
    sink is attached, receives a ["circuit_breaker_open"] record of high
    severity that carries the error text. *)
Theorem Limit_store_unavailable rl E rule next w r st err st1 :
  enabled rl = true -> redis_attached rl = true ->
  execute_allow E (store_key rule r) (store_limit rule) st = (inr err, st1) ->
  let o := Limit rl E rule next w r st in
  passed_on o = false
  /\ response o = Http.Error w "Service temporarily unavailable" StatusServiceUnavailable
  /\ (Status w = None -> Status (response o) = Some 503)
  /\ (forall h, In h quota_headers ->
        Get (RespHeader (response o)) h = Get (RespHeader w) h)
  /\ after o = st1
  /\ security_log o =
       snd (Strategy rule r)
       ++ LogEvent (securityLogger rl) "circuit_breaker_open" SeverityHigh r
            (<["error" := Error_text err]> ∅)
  /\ (forall sl, securityLogger rl = Some sl -> logger_attached sl = true ->
        exists rec,
          security_log o = snd (Strategy rule r) ++ [rec]
          /\ level rec = LError
          /\ event_type rec = "circuit_breaker_open"
          /\ severity rec = SeverityHigh
          /\ details rec !! "error" = Some (Error_text err)).
Proof.
  intros Hen Hre Hex. cbv zeta. rewrite Limit_reaches_store, Hex by assumption.
  cbn [passed_on response after security_log].
  split; [reflexivity | ]. split; [reflexivity | ]. split.
  { intros Hw. unfold Http.Error, Write, WriteHeader, set_header, del_header.
    cbn [Status]. rewrite Hw. reflexivity. }
  split; [intros h Hin; apply Error_keeps_quota_headers, Hin | ].
  split; [reflexivity | ]. split; [reflexivity | ].
  intros sl Hsl Hatt. rewrite Hsl. unfold LogEvent. rewrite Hatt. cbn [negb].
  eexists. split; [reflexivity | ]. cbn.
  repeat split; first [reflexivity | apply lookup_insert_eq].
Qed.

End Handler.


(** C3. [RealIP] hands the next handler the request with [RemoteAddr]
    replaced by a non-empty X-Real-IP header, whatever the peer is; failing
    that, by the trimmed left-most entry of a non-empty X-Forwarded-For when
    it parses as an IP address; otherwise unchanged. No other field changes.
    Hence a client that sends X-Real-IP with a value of its choice is seen
    under that value. *)
Theorem RealIP_overwrites r :
  let xri := Get (ReqHeader r) "X-Real-IP" in
  let xff := Get (ReqHeader r) "X-Forwarded-For" in
  let r' := rewrite_remote r in
  (xri <> "" -> RemoteAddr r' = xri)
  /\ (xri = "" -> xff <> "" -> ParseIP (TrimSpace (first_entry xff)) <> None ->
        RemoteAddr r' = TrimSpace (first_entry xff))
  /\ (xri = "" -> xff = "" \/ ParseIP (TrimSpace (first_entry xff)) = None -> r' = r)
  /\ (ReqHeader r' = ReqHeader r /\ Method r' = Method r /\ Path r' = Path r
      /\ ctx_user_id r' = ctx_user_id r)
  /\ (forall World (next : Handler (World := World)) w st,
        RealIP next w r st = next w r' st)
  /\ (forall chosen, chosen <> "" ->
        RemoteAddr (rewrite_remote (with_header r "X-Real-IP" chosen)) = chosen).
Proof.
  cbv zeta.
  assert (Hfirst : forall xff, match Split xff "," with
                               | [] => EmptyString
                               | first :: _ => first
                               end = first_entry xff) by reflexivity.
  split; [ | split; [ | split; [ | split; [ | split]]]].
  - intros Hxri. unfold rewrite_remote. rewrite (nonempty_eqb _ Hxri). reflexivity.
  - intros Hxri Hxff Hip. unfold rewrite_remote, first_entry in *.
    rewrite (empty_eqb _ Hxri), (nonempty_eqb _ Hxff).
    destruct (Split (Get (ReqHeader r) "X-Forwarded-For") ",") as [|first rest] eqn:Hs;
      [exact (False_ind _ (Split_nonempty _ _ Hs)) | ].
    destruct (ParseIP (TrimSpace first)); [reflexivity | contradiction].
  - intros Hxri Hno. unfold rewrite_remote, first_entry in *. rewrite (empty_eqb _ Hxri).
    destruct Hno as [Hxff | Hip]; [rewrite (empty_eqb _ Hxff); reflexivity | ].
    destruct (negb _); [ | reflexivity].
    destruct (Split (Get (ReqHeader r) "X-Forwarded-For") ",") as [|first rest];
      [reflexivity | ].
    rewrite Hip. reflexivity.
  - unfold rewrite_remote.
    destruct (negb (String.eqb (Get (ReqHeader r) "X-Real-IP") ""));
      [repeat split; reflexivity | ].
    destruct (negb (String.eqb (Get (ReqHeader r) "X-Forwarded-For") ""));
      [ | repeat split; reflexivity].
    destruct (Split _ ","); [repeat split; reflexivity | ].
    destruct (ParseIP _); repeat split; reflexivity.
  - reflexivity.
  - intros chosen Hch. unfold rewrite_remote, with_header. cbn [ReqHeader].
    assert (Hget : Get (Set_ (ReqHeader r) "X-Real-IP" chosen) "X-Real-IP" = chosen).
    { unfold Get, Set_. rewrite lookup_insert_eq. reflexivity. }
    rewrite Hget, (nonempty_eqb _ Hch). reflexivity.
Qed.

End WithNet.

Import Scenario IPv4.

(** C1 as the specification words it does not hold: with the limiter enabled
    and a store attached, a rejection by the open breaker, and likewise a
    failing store call, is answered with 503 and the protected handler does
    not run. The limiter does not fail open. *)
Lemma Limit_fails_closed :
  let r := request "203.0.113.1:4711" [] in
  let rejected := Limit limiter breaker_open_env global_rule ok_handler blank r 0%nat in
  let failed := Limit limiter store_down_env global_rule ok_handler blank r 0%nat in
  enabled limiter = true /\ redis_attached limiter = true
  /\ passed_on rejected = false
  /\ Status (response rejected) = Some StatusServiceUnavailable
  /\ passed_on failed = false
  /\ Status (response failed) = Some StatusServiceUnavailable
  /\ ~ fails_open rejected /\ ~ fails_open failed.
Proof.
  cbv zeta. repeat split; try (vm_compute; reflexivity);
    intros [Hpassed _]; vm_compute in Hpassed; discriminate Hpassed.
Qed.

Lemma Limit_store_unavailable_witness :
  let r := request "203.0.113.1:4711" [] in
  let o := Limit limiter breaker_open_env global_rule ok_handler blank r 0%nat in
  passed_on o = false
  /\ Status (response o) = Some 503
  /\ Body (response o) = "Service temporarily unavailable" +:+ String (ascii_of_N 10) ""
  /\ map event_type (security_log o) = ["circuit_breaker_open"].
Proof.
  cbv zeta.
  destruct (Limit_store_unavailable limiter breaker_open_env global_rule ok_handler blank
              (request "203.0.113.1:4711" []) 0%nat Gobreaker.ErrOpenState 0%nat
              eq_refl eq_refl eq_refl)
    as (Hpassed & Hresp & Hstatus & _ & _ & Hlog & _).
  split; [exact Hpassed | ]. split; [exact (Hstatus eq_refl) | ].
  rewrite Hresp, Hlog. split; vm_compute; reflexivity.
Defined.


(** A peer outside every trusted range names itself through X-Real-IP, with
    an address or with any other text. *)
Lemma RealIP_overwrites_witness :
  RemoteAddr (rewrite_remote (request "203.0.113.1:4711" [("X-Real-IP", "10.0.0.1")]))
  = "10.0.0.1"
  /\ RemoteAddr (rewrite_remote
                   (with_header (request "203.0.113.1:4711" []) "X-Real-IP" "someone else"))
     = "someone else"
  /\ RemoteAddr (rewrite_remote
                   (request "203.0.113.1:4711" [("X-Forwarded-For", " 192.0.2.7 , 10.0.0.5")]))
     = "192.0.2.7".
Proof.
  split; [ | split].
  - destruct (RealIP_overwrites (request "203.0.113.1:4711" [("X-Real-IP", "10.0.0.1")]))
      as (Hreal & _).
    rewrite Hreal; [vm_compute; reflexivity | vm_compute; discriminate].
  - destruct (RealIP_overwrites (request "203.0.113.1:4711" []))
      as (_ & _ & _ & _ & _ & Hchosen).
    apply Hchosen. discriminate.
  - destruct (RealIP_overwrites
                (request "203.0.113.1:4711" [("X-Forwarded-For", " 192.0.2.7 , 10.0.0.5")]))
      as (_ & Hfwd & _).
    rewrite Hfwd; [vm_compute; reflexivity | vm_compute; reflexivity
                   | vm_compute; discriminate | vm_compute; discriminate].
Defined.

(** Behind [RealIP], the by-IP key of the rate limiter is the value the client
    put in X-Real-IP. *)
Example RealIP_then_ByIP :
  ByIP limiter (rewrite_remote (request "203.0.113.1:4711" [("X-Real-IP", "198.51.100.77")]))
  = ("198.51.100.77", []).
Proof. vm_compute. reflexivity. Qed.

End MiddlewareFacts.

(** ** The circuit breaker of the rate limiter *)

Module BreakerFacts.

Import Gobreaker Breaker Middleware.

(** The trip condition at and around its two thresholds. *)
Example readyToTrip_thresholds :
  let counts requests failures :=
    {| Requests := requests; TotalSuccesses := requests - failures;
       TotalFailures := failures; ConsecutiveSuccesses := 0; ConsecutiveFailures := 0 |} in
  readyToTrip (counts 3 2) = true
  /\ readyToTrip (counts 5 3) = true
  /\ readyToTrip (counts 2 2) = false
  /\ readyToTrip (counts 3 1) = false
  /\ readyToTrip (counts 5 2) = false
  /\ readyToTrip (counts 0 0) = false
  /\ readyToTrip (counts 4294967295 2576980377) = true
  /\ readyToTrip (counts 4294967295 2576980376) = false.
Proof. vm_compute. repeat split; reflexivity. Qed.

(** In windows of up to 100 requests the float64 test on the failure ratio is
    the test on the exact ratio: [failures / requests >= 3 / 5]. *)
Lemma ratio_test_checked : ratio_test_agrees_upto 100 = true.
Proof. vm_compute. reflexivity. Qed.

Lemma ratio_test_agrees_upto_spec n requests failures :
  ratio_test_agrees_upto n = true ->
  (1 <= requests <= n)%nat -> (failures <= requests)%nat ->
  ratio_test_agrees requests failures = true.
Proof.
  unfold ratio_test_agrees_upto. intros Hall Hr Hf.
  rewrite forallb_forall in Hall.
  assert (Hrow : forallb (ratio_test_agrees requests) (List.seq 0 (S requests)) = true)
    by (apply Hall, in_seq; lia).
  rewrite forallb_forall in Hrow. apply Hrow, in_seq. lia.
Qed.

Lemma failureRatio_threshold c :
  1 <= Requests c <= 100 -> 0 <= TotalFailures c <= Requests c ->
  (0x1.3333333333333p-1 <=? failureRatio c)%float = (3 * Requests c <=? 5 * TotalFailures c).
Proof.
  intros Hr Hf.
  pose proof (ratio_test_agrees_upto_spec 100 (Z.to_nat (Requests c))
                (Z.to_nat (TotalFailures c)) ratio_test_checked) as Hall.
  assert (Hn : Z.of_nat 100 = 100) by reflexivity.
  assert (Hagree : ratio_test_agrees (Z.to_nat (Requests c)) (Z.to_nat (TotalFailures c))
                   = true) by (apply Hall; lia).
  unfold ratio_test_agrees in Hagree. rewrite !Z2Nat.id in Hagree by lia.
  apply Bool.eqb_prop in Hagree. exact Hagree.
Qed.

Section Execute.
Context {A World : Type}.

Implicit Types (cb : CircuitBreaker) (operation : World -> (A + ExecError) * World).

Lemma execute_open cb now operation w :
  state (current cb now) = Open ->
  execute cb now operation w = (current cb now, inr ErrOpenState, w).
Proof. intros Hopen. unfold execute. rewrite Hopen. reflexivity. Qed.

Lemma current_still_open cb now :
  state cb = Open -> now - openedAt cb < Timeout (settings cb) -> current cb now = cb.
Proof.
  intros Hopen Hsoon. unfold current. rewrite Hopen.
  destruct (Z.leb_spec (Timeout (settings cb)) (now - openedAt cb)); [lia | reflexivity].
Qed.

(** C9. On the breaker of the rate limiter, whose trip condition is
    [readyToTrip]: a call that finds the breaker Closed invokes the
    operation and records its outcome, and the breaker is Open afterwards
    exactly when the counters of the current window then show at least 3
    requests and a failure ratio of at least 0.6 (as float64 computes it, which
    for windows of up to 100 requests is [failures / requests >= 3/5]
    exactly); otherwise it stays Closed.
    Once it is Open, every call made before the open duration has elapsed
    is rejected with the breaker-open error, whatever the operation: the
    operation is not invoked and the world is untouched. *)
Theorem breaker_trips cb now operation w :
  ReadyToTrip (settings cb) = readyToTrip ->
  state (current cb now) = Closed ->
  let '(cb', r, w') := execute cb now operation w in
  let c := record_call (counts (current cb now)) (is_ok r) in
  (r, w') = operation w
  /\ counts cb' = c
  /\ (state cb' = Open <->
      3 <= Requests c /\ (0x1.3333333333333p-1 <=? failureRatio c)%float = true)
  /\ (Requests c <= 100 -> 0 <= TotalFailures c <= Requests c ->
      (state cb' = Open <-> 3 <= Requests c /\ 3 * Requests c <= 5 * TotalFailures c))
  /\ (state cb' <> Open -> state cb' = Closed)
  /\ (state cb' = Open ->
      openedAt cb' = now
      /\ forall now' (operation' : World -> (A + ExecError) * World) w'',
           now' - now < Timeout (settings cb) ->
           execute cb' now' operation' w'' = (cb', inr ErrOpenState, w'')).
Proof.
  intros Htrip Hclosed.
  assert (Hset : settings (current cb now) = settings cb).
  { unfold current. destruct (state cb); repeat (destruct (_ && _) || destruct (_ <=? _));
      reflexivity. }
  destruct (execute cb now operation w) as [[cb' r] w'] eqn:Hex.
  unfold execute in Hex. rewrite Hclosed, Hset, Htrip in Hex.
  destruct (operation w) as [r0 w0] eqn:Hop.
  set (c := record_call (counts (current cb now)) (is_ok r)).
  assert (Hready : readyToTrip c = true <->
                   3 <= Requests c /\ (0x1.3333333333333p-1 <=? failureRatio c)%float = true).
  { unfold readyToTrip. rewrite andb_true_iff, Z.leb_le. reflexivity. }
  assert (Hexact : Requests c <= 100 -> 0 <= TotalFailures c <= Requests c ->
                   (readyToTrip c = true <->
                    3 <= Requests c /\ 3 * Requests c <= 5 * TotalFailures c)).
  { intros Hsmall Hfail. rewrite Hready. split.
    - intros [H3 Hratio]. split; [exact H3 | ].
      rewrite failureRatio_threshold in Hratio by lia. apply Z.leb_le, Hratio.
    - intros [H3 Hratio]. split; [exact H3 | ].
      rewrite failureRatio_threshold by lia. apply Z.leb_le, Hratio. }
  destruct (readyToTrip (record_call (counts (current cb now)) (is_ok r0))) eqn:Hr;
    injection Hex as <- <- <-; fold c in Hr;
    cbn [with_state state counts openedAt].
  - split; [reflexivity | ]. split; [reflexivity | ].
    split; [split; [intros _; apply Hready; exact Hr | reflexivity] | ].
    split; [intros Hs Hf; split; [intros _; apply (Hexact Hs Hf); exact Hr | reflexivity] | ].
    split; [intros Hne; contradiction | ].
    intros _. split; [reflexivity | ].
    intros now' operation' w'' Hsoon.
    rewrite execute_open; rewrite current_still_open; try reflexivity;
      cbn [with_state state openedAt settings]; rewrite ?Hset; assumption.
  - split; [reflexivity | ]. split; [reflexivity | ].
    split; [split; [discriminate | intros Hc; apply Hready in Hc; congruence] | ].
    split; [intros Hs Hf; split;
            [discriminate | intros Hc; apply (Hexact Hs Hf) in Hc; congruence] | ].
    split; [reflexivity | discriminate].
Qed.

End Execute.

Import Scenario.

(** The third failure in a row opens the limiter's breaker; so does the
    third failure in five calls, a ratio of exactly 0.6. The next call is
    then rejected and the store is not asked. *)
Lemma breaker_trips_witness :
  let '(cb2, st2) := run_calls limiter_breaker [(1, false); (2, false)] 0%nat in
  let '(cb4, st4) := run_calls limiter_breaker [(1, true); (2, true); (3, false); (4, false)]
                       0%nat in
  state cb2 = Closed /\ state cb4 = Closed
  /\ state (run_calls cb2 [(3, false)] st2).1 = Open
  /\ state (run_calls cb4 [(5, false)] st4).1 = Open
  /\ state (run_calls cb4 [(5, true)] st4).1 = Closed
  /\ execute (run_calls cb2 [(3, false)] st2).1 4 (store_call true) 3%nat
     = ((run_calls cb2 [(3, false)] st2).1, inr ErrOpenState, 3%nat).
Proof.
  destruct (run_calls limiter_breaker [(1, false); (2, false)] 0%nat) as [cb2 st2] eqn:H2.
  destruct (run_calls limiter_breaker [(1, true); (2, true); (3, false); (4, false)] 0%nat)
    as [cb4 st4] eqn:H4.
  vm_compute in H2, H4. injection H2 as <- <-. injection H4 as <- <-.
  split; [reflexivity | ]. split; [reflexivity | ].
  split; [vm_compute; reflexivity | ]. split; [vm_compute; reflexivity | ].
  split; [vm_compute; reflexivity | ].
  match goal with
  | |- execute (run_calls ?cb _ ?st).1 _ _ _ = _ =>
      pose proof (breaker_trips cb 3 (store_call false) st eq_refl eq_refl) as Htrip
  end.
  cbn [run_calls fst].
  destruct (execute _ 3 (store_call false) 2%nat) as [[cb' r] w'] eqn:Hex.
  destruct Htrip as (_ & _ & Hiff & _ & _ & Hopen). cbn [fst].
  assert (Hst : state cb' = Open) by (vm_compute in Hex; injection Hex as <- _ _; reflexivity).
  destruct (Hopen Hst) as (_ & Hrej).
  apply Hrej. vm_compute. reflexivity.
Defined.

End BreakerFacts.

(** * Further properties *)

(** ** retry.Do: what a run looks like *)

Module RetryRuns.

Import Retry.

Section Runs.
Context {OpErr World : Type}.

Local Abbreviation event := (event OpErr).

Implicit Types (c : Config OpErr World) (s : Strategy World) (E : Env OpErr World).
Implicit Types (tr : list event) (w : World).

Lemma slept_app tr tr' : slept (tr ++ tr') = slept tr ++ slept tr'.
Proof.
  induction tr as [|e tr IH]; [reflexivity | ].
  destruct e; cbn; rewrite IH; reflexivity.
Qed.

Lemma sleeps_done_app tr tr' : sleeps_done (tr ++ tr') = sleeps_done tr + sleeps_done tr'.
Proof.
  induction tr as [|e tr IH]; [reflexivity | ].
  destruct e as [| | delay [|] |]; cbn [sleeps_done app]; rewrite IH; lia.
Qed.

Lemma hooked_app tr tr' : hooked (tr ++ tr') = hooked tr ++ hooked tr'.
Proof.
  induction tr as [|e tr IH]; [reflexivity | ].
  destruct e; cbn; rewrite IH; reflexivity.
Qed.

(** What the [OnRetry] step of an iteration leaves in the trace. *)
Lemma hook_events c attempt err w w1 hook :
  match OnRetry c with
  | Some f => (f attempt err w, [EvOnRetry attempt err])
  | None => (w, [])
  end = (w1, hook) ->
  calls hook = 0 /\ slept hook = [] /\ sleeps_done hook = 0
  /\ hooked hook = match OnRetry c with Some _ => [attempt] | None => [] end.
Proof.
  destruct (OnRetry c); intros [= <- <-]; repeat split; reflexivity.
Qed.

Ltac open_iteration E Hctx Hh Hd Hs Hf :=
  cbn [retry_loop];
  destruct (ctx_Err E _) as [ce|] eqn:Hctx;
  [ | match goal with
      | |- context [match OnRetry ?c with _ => _ end] =>
          destruct (match OnRetry c with
                    | Some f => _
                    | None => _
                    end) as [w1 hook] eqn:Hh
      end;
      match goal with
      | |- context [NextDelay ?s ?a ?w] => destruct (NextDelay s a w) as [delay w2] eqn:Hd
      end;
      match goal with
      | |- context [select_sleep E ?d ?w] =>
          destruct (select_sleep E d w) as [[ce|] w3] eqn:Hs
      end;
      [ | match goal with
          | |- context [fn E ?w] => destruct (fn E w) as [[e|] w4] eqn:Hf
          end ] ].

Ltac tally :=
  rewrite ?RetryFacts.calls_app, ?sleeps_done_app, ?slept_app, ?hooked_app, ?length_app;
  unfold calls in *;
  cbn [List.filter is_call length sleeps_done slept hooked app] in *.

(** In the loop every invocation follows a sleep that ran to its end, and at
    most one sleep, the last, is cut short. *)
Lemma loop_sleeps c s E n : forall attempt err w,
  let tr := trace (retry_loop c s E n attempt err w) in
  calls tr = sleeps_done tr
  /\ sleeps_done tr <= Z.of_nat (length (slept tr)) <= sleeps_done tr + 1
  /\ Z.of_nat (length (slept tr)) <= Z.of_nat n.
Proof.
  induction n as [|n IH]; intros attempt err w; cbv zeta.
  - cbn [retry_loop trace]. tally. lia.
  - open_iteration E Hctx Hh Hd Hs Hf; cbn [trace prepend].
    + tally. lia.
    + destruct (hook_events _ _ _ _ _ _ Hh) as (Hc & Hsl & Hsd & _).
      tally. rewrite Hsl. cbn [length]. lia.
    + destruct (hook_events _ _ _ _ _ _ Hh) as (Hc & Hsl & Hsd & _).
      destruct (IH (attempt + 1) e w4) as (IH1 & IH2 & IH3).
      tally. rewrite Hsl. cbn [length app]. lia.
    + destruct (hook_events _ _ _ _ _ _ Hh) as (Hc & Hsl & Hsd & _).
      tally. rewrite Hsl. cbn [length]. lia.
Qed.

(** X1. [Do] refuses a configuration with a negative [MaxAttempts] or without
    a strategy before doing anything: the operation is not invoked, nothing
    is logged, the world is as it was, and the error wraps
    [ErrInvalidConfig]. With any other configuration the operation is invoked
    at least once. *)
Theorem Do_refuses_invalid_config c E w :
  (MaxAttempts c < 0 \/ Strategy_ c = None ->
   trace (Do c E w) = [] /\ world (Do c E w) = w
   /\ exists msg opts, ret (Do c E w) = Some (Wrap ErrInvalidConfig msg opts))
  /\ (0 <= MaxAttempts c -> Strategy_ c <> None -> 1 <= calls (trace (Do c E w))).
Proof.
  split.
  - intros Hbad. unfold Do, Validate.
    destruct (Z.ltb_spec (MaxAttempts c) 0) as [Hneg | Hpos].
    + cbn. repeat split. eexists _, _. reflexivity.
    + destruct Hbad as [Hneg | Hnil]; [lia | ]. rewrite Hnil. cbn.
      repeat split. eexists _, _. reflexivity.
  - intros Hpos Hstr. unfold Do, Validate.
    destruct (Z.ltb_spec (MaxAttempts c) 0) as [Hneg | _]; [lia | ].
    destruct (Strategy_ c) as [s|]; [ | contradiction].
    destruct (fn E w) as [[err|] w1]; [ | cbn [trace]; tally; lia].
    destruct (MaxAttempts c =? 0); [cbn [trace]; tally; lia | ].
    cbn [trace prepend].
    pose proof (loop_sleeps c s E (Z.to_nat (MaxAttempts c)) 0 err w1) as (H1 & H2 & _).
    tally. lia.
Qed.




(** The delays of the loop with a strategy that is a function of the attempt
    number alone. *)
Lemma loop_schedule c s E (d : Z -> Z) n :
  (forall a w, NextDelay s a w = (d a, w)) ->
  forall attempt err w,
    let tr := trace (retry_loop c s E n attempt err w) in
    let k := Z.of_nat (length (slept tr)) in
    slept tr = d <$> seqZ attempt k
    /\ hooked tr = match OnRetry c with Some _ => seqZ attempt k | None => [] end.
Proof.
  intros Hpure. induction n as [|n IH]; intros attempt err w; cbv zeta.
  - cbn [retry_loop trace]. tally. split; [reflexivity | ]. destruct (OnRetry c); reflexivity.
  - assert (Hone : forall m, seqZ m (Z.of_nat 1) = [m]) by (intros m; reflexivity).
    open_iteration E Hctx Hh Hd Hs Hf; cbn [trace prepend];
      try (rewrite Hpure in Hd; injection Hd as <- <-).
    + tally. split; [reflexivity | ]. destruct (OnRetry c); reflexivity.
    + destruct (hook_events _ _ _ _ _ _ Hh) as (_ & Hsl & _ & Hhk).
      tally. rewrite Hsl, Hhk. cbn [app length]. rewrite Hone.
      split; [reflexivity | ]. destruct (OnRetry c); reflexivity.
    + destruct (hook_events _ _ _ _ _ _ Hh) as (_ & Hsl & _ & Hhk).
      destruct (IH (attempt + 1) e w4) as (IHs & IHh).
      tally. rewrite Hsl, Hhk. cbn [app length].
      set (rest := trace (retry_loop c s E n (attempt + 1) e w4)) in *.
      rewrite Nat2Z.inj_succ, (seqZ_cons attempt) by lia.
      replace (Z.pred (Z.succ (Z.of_nat (length (slept rest)))))
        with (Z.of_nat (length (slept rest))) by lia.
      replace (Z.succ attempt) with (attempt + 1) by lia.
      cbn [fmap list_fmap]. rewrite <- IHs. split; [reflexivity | ].
      destruct (OnRetry c); [cbn [app]; rewrite <- IHh; reflexivity | exact IHh].
    + destruct (hook_events _ _ _ _ _ _ Hh) as (_ & Hsl & _ & Hhk).
      tally. rewrite Hsl, Hhk. cbn [app length]. rewrite Hone.
      split; [reflexivity | ]. destruct (OnRetry c); reflexivity.
Qed.


End Runs.

Import Scenario.

Lemma Do_refuses_invalid_config_witness :
  trace (Do (config (-1)) (live_env always_failing) 0%nat) = []
  /\ world (Do (config (-1)) (live_env always_failing) 0%nat) = 0%nat
  /\ 1 <= calls (trace (Do (config 2) (live_env always_failing) 0%nat)).
Proof.
  destruct (Do_refuses_invalid_config (config (-1)) (live_env always_failing) 0%nat)
    as (Hbad & _).
  destruct (Hbad ltac:(left; cbn; lia)) as (Htrace & Hworld & _).
  destruct (Do_refuses_invalid_config (config 2) (live_env always_failing) 0%nat)
    as (_ & Hgood).
  split; [exact Htrace | ]. split; [exact Hworld | ].
  apply Hgood; [cbn; lia | discriminate].
Defined.




End RetryRuns.

(** ** Backoff strategies: bounds *)

Module BackoffBounds.

Import Backoff.

(** X5. The linear delay never exceeds the strategy's maximum, for every
    strategy value and every attempt number: negative attempts count as
    attempt 0, and when the 64-bit product wraps around the result is still
    at most the maximum (it is then whatever the wrapped product is). *)
Theorem linear_delay_at_most_max l attempt :
  Linear.NextDelay l attempt <= l_max l
  /\ (attempt < 0 -> Linear.NextDelay l attempt = Linear.NextDelay l 0)
  /\ (in_int64 (l_max l) -> in_int64 (Linear.NextDelay l attempt)).
Proof.
  unfold Linear.NextDelay. split; [ | split].
  - destruct (Z.ltb_spec (l_max l) (wrap64 (l_increment l *
        wrap64 ((if attempt <? 0 then 0 else attempt) + 1)))); lia.
  - intros Hneg. destruct (Z.ltb_spec attempt 0); [reflexivity | lia].
  - intros Hmax.
    set (delay := wrap64 _).
    assert (Hd : in_int64 delay).
    { unfold delay, wrap64, in_int64, MinInt64, MaxInt64.
      match goal with |- context [?x mod 2 ^ 64] =>
        pose proof (Z.mod_pos_bound x (2 ^ 64) ltac:(lia)) end. lia. }
    destruct (l_max l <? delay); assumption.
Qed.

(** X6. For a strategy built by [NewLinearBackoff], whatever the arguments,
    and attempts [0 <= a <= b] whose product [increment * (b + 1)] fits 64
    bits: the delays are positive, do not decrease from [a] to [b], stay at
    most [max], and sit exactly at [max] from the first attempt whose
    product reaches it. A strategy built by [NewConstantBackoff] returns the
    same positive delay at every attempt, the requested one when that is
    positive and one second otherwise. *)
Theorem constructed_delays_grow increment max delay a b :
  let l := NewLinearBackoff increment max in
  let c := NewConstantBackoff delay in
  0 <= a <= b -> l_increment l * (b + 1) <= MaxInt64 ->
  0 < Linear.NextDelay l a
  /\ Linear.NextDelay l a <= Linear.NextDelay l b
  /\ Linear.NextDelay l b <= l_max l
  /\ (l_max l <= l_increment l * (a + 1) -> Linear.NextDelay l b = l_max l)
  /\ 0 < Constant.NextDelay c a
  /\ Constant.NextDelay c a = Constant.NextDelay c b
  /\ Constant.NextDelay c a = (if 0 <? delay then delay else 1 * Second).
Proof.
  cbv zeta. intros Hab Hfit.
  pose proof (BackoffFacts.NewLinearBackoff_valid increment max) as (Hinc & Hmax).
  set (l := NewLinearBackoff increment max) in *.
  assert (Hrange : forall k, 0 <= k <= b ->
            Linear.NextDelay l k = Z.min (l_increment l * (k + 1)) (l_max l)).
  { intros k Hk. apply BackoffFacts.linear_delay_exact; [lia | | ];
      unfold in_int64, MinInt64, MaxInt64 in *; nia. }
  rewrite (Hrange a), (Hrange b) by lia.
  split; [nia | ]. split; [nia | ]. split; [lia | ]. split; [nia | ].
  unfold Constant.NextDelay, NewConstantBackoff, Second. cbn [c_delay].
  destruct (Z.leb_spec delay 0), (Z.ltb_spec 0 delay); repeat split; lia.
Qed.

Lemma linear_delay_at_most_max_witness :
  let l := NewLinearBackoff Second (30 * Second) in
  Linear.NextDelay l (-5) = Second /\ in_int64 (Linear.NextDelay l 100).
Proof.
  cbv zeta. split.
  - destruct (linear_delay_at_most_max (NewLinearBackoff Second (30 * Second)) (-5))
      as (_ & Hneg & _).
    rewrite Hneg by lia. vm_compute. reflexivity.
  - destruct (linear_delay_at_most_max (NewLinearBackoff Second (30 * Second)) 100)
      as (_ & _ & Hin).
    apply Hin. vm_compute. split; discriminate.
Defined.

Lemma constructed_delays_grow_witness :
  let l := NewLinearBackoff (2 * Second) (20 * Second) in
  0 < Linear.NextDelay l 1
  /\ Linear.NextDelay l 1 <= Linear.NextDelay l 50
  /\ Linear.NextDelay l 50 = 20 * Second.
Proof.
  cbv zeta.
  destruct (constructed_delays_grow (2 * Second) (20 * Second) 0 1 50)
    as (Hpos & Hmono & Hmax & _); [lia | vm_compute; discriminate | ].
  split; [exact Hpos | ]. split; [exact Hmono | ]. vm_compute. reflexivity.
Defined.

End BackoffBounds.

(** ** Exponential backoff without jitter *)

Module ExponentialBounds.

Import Backoff.

(** A canonical binary64 mantissa has at most 53 bits, and exactly 53 above
    the least exponent. *)
Lemma digits2_pos_bounds m :
  2 ^ (Z.pos (digits2_pos m) - 1) <= Z.pos m < 2 ^ Z.pos (digits2_pos m).
Proof.
  induction m as [m IH | m IH | ]; cbn [digits2_pos]; [ | | cbn; lia].
  - rewrite Pos2Z.inj_succ. change (Z.pos m~1) with (2 * Z.pos m + 1).
    replace (Z.succ (Z.pos (digits2_pos m)) - 1) with (Z.succ (Z.pos (digits2_pos m) - 1)) by lia.
    rewrite !Z.pow_succ_r by lia.
    generalize dependent (2 ^ (Z.pos (digits2_pos m) - 1)).
    generalize dependent (2 ^ Z.pos (digits2_pos m)). intros; lia.
  - rewrite Pos2Z.inj_succ. change (Z.pos m~0) with (2 * Z.pos m).
    replace (Z.succ (Z.pos (digits2_pos m)) - 1) with (Z.succ (Z.pos (digits2_pos m) - 1)) by lia.
    rewrite !Z.pow_succ_r by lia.
    generalize dependent (2 ^ (Z.pos (digits2_pos m) - 1)).
    generalize dependent (2 ^ Z.pos (digits2_pos m)). intros; lia.
Qed.

Lemma bounded_canonical m e :
  bounded prec emax m e = true ->
  Z.pos m < 2 ^ 53 /\ -1074 <= e /\ (-1074 < e -> 2 ^ 52 <= Z.pos m).
Proof.
  unfold bounded, canonical_mantissa, fexp, SpecFloat.emin, prec, emax.
  intros Hb. apply andb_prop in Hb. destruct Hb as [Hc _]. apply Z.eqb_eq in Hc.
  pose proof (digits2_pos_bounds m) as [Hlo Hhi].
  set (d := Z.pos (digits2_pos m)) in *.
  assert (Hd : d <= 53) by lia.
  split; [ | split; [lia | ]].
  - apply Z.lt_le_trans with (2 ^ d); [exact Hhi | ]. apply Z.pow_le_mono_r; lia.
  - intros He. assert (d = 53) by lia. subst d. rewrite H in Hlo. exact Hlo.
Qed.

Lemma magnitude_mono m1 e1 m2 e2 :
  bounded prec emax m1 e1 = true -> bounded prec emax m2 e2 = true ->
  e1 < e2 \/ (e1 = e2 /\ Z.pos m1 <= Z.pos m2) ->
  (if 0 <=? e1 then Z.pos m1 * 2 ^ e1 else Z.pos m1 / 2 ^ (- e1))
  <= (if 0 <=? e2 then Z.pos m2 * 2 ^ e2 else Z.pos m2 / 2 ^ (- e2)).
Proof.
  intros B1 B2 Hord.
  destruct (bounded_canonical _ _ B1) as (Hm1 & He1 & _).
  destruct (bounded_canonical _ _ B2) as (_ & _ & Hm2).
  destruct Hord as [Hlt | (-> & Hle)].
  - specialize (Hm2 ltac:(lia)).
    destruct (Z.leb_spec 0 e1), (Z.leb_spec 0 e2); try lia.
    + (* 0 <= e1 < e2 *)
      replace e2 with (Z.succ e1 + (e2 - Z.succ e1)) by lia.
      rewrite Z.pow_add_r, Z.pow_succ_r by lia.
      assert (0 < 2 ^ e1) by (apply Z.pow_pos_nonneg; lia).
      assert (0 < 2 ^ (e2 - Z.succ e1)) by (apply Z.pow_pos_nonneg; lia).
      assert (Hm : Z.pos m1 <= 2 * Z.pos m2) by (change (2 ^ 53) with (2 * 2 ^ 52) in Hm1; lia).
      generalize dependent (2 ^ e1). generalize dependent (2 ^ (e2 - Z.succ e1)).
      intros b Hb a Ha.
      apply Z.le_trans with (2 * Z.pos m2 * a); [nia | ].
      replace (Z.pos m2 * (2 * a * b)) with (2 * Z.pos m2 * a * b) by ring. nia.
    + (* e1 < 0 <= e2 *)
      assert (0 < 2 ^ e2) by (apply Z.pow_pos_nonneg; lia).
      assert (2 <= 2 ^ (- e1)).
      { change 2 with (2 ^ 1) at 1. apply Z.pow_le_mono_r; lia. }
      assert (Z.pos m1 / 2 ^ (- e1) <= Z.pos m1 / 2)
        by (apply Z.div_le_compat_l; lia).
      assert (Z.pos m1 / 2 < 2 ^ 52).
      { apply Z.div_lt_upper_bound; [lia | ]. change (2 ^ 53) with (2 * 2 ^ 52) in Hm1. lia. }
      nia.
    + (* e1 < e2 < 0 *)
      replace (- e1) with ((e2 - e1) + (- e2)) by lia.
      rewrite Z.pow_add_r by lia.
      assert (0 < 2 ^ (- e2)) by (apply Z.pow_pos_nonneg; lia).
      assert (0 < 2 ^ (e2 - e1)) by (apply Z.pow_pos_nonneg; lia).
      rewrite <- Z.div_div by lia.
      apply Z.div_le_mono; [lia | ].
      assert (2 <= 2 ^ (e2 - e1)).
      { change 2 with (2 ^ 1) at 1. apply Z.pow_le_mono_r; lia. }
      assert (Z.pos m1 / 2 ^ (e2 - e1) <= Z.pos m1 / 2)
        by (apply Z.div_le_compat_l; lia).
      assert (Z.pos m1 / 2 < 2 ^ 52).
      { apply Z.div_lt_upper_bound; [lia | ]. change (2 ^ 53) with (2 * 2 ^ 52) in Hm1. lia. }
      lia.
  - destruct (Z.leb_spec 0 e2).
    + apply Z.mul_le_mono_nonneg_r; [apply Z.pow_nonneg; lia | exact Hle].
    + apply Z.div_le_mono; [apply Z.pow_pos_nonneg; lia | exact Hle].
Qed.

Lemma magnitude_nonneg m e :
  0 <= (if 0 <=? e then Z.pos m * 2 ^ e else Z.pos m / 2 ^ (- e)).
Proof.
  destruct (Z.leb_spec 0 e).
  - apply Z.mul_nonneg_nonneg; [lia | apply Z.pow_nonneg; lia].
  - apply Z.div_pos; [lia | apply Z.pow_pos_nonneg; lia].
Qed.

Ltac finish_ranges :=
  repeat match goal with
         | |- context [Z.leb ?a ?b] => destruct (Z.leb_spec a b)
         end;
  cbn [andb]; unfold MinInt64, MaxInt64 in *; lia.

Lemma int64_of_float_le x y :
  (y <? x)%float = false -> MinInt64 < int64_of_float y ->
  int64_of_float x <= int64_of_float y.
Proof.
  rewrite FloatAxioms.ltb_spec. unfold SFltb, int64_of_float.
  pose proof (FloatAxioms.Prim2SF_valid x) as Vx.
  pose proof (FloatAxioms.Prim2SF_valid y) as Vy.
  destruct (Prim2SF y) as [sy | sy | | sy my ey];
    destruct (Prim2SF x) as [sx | sx | | sx mx ex];
    cbn [SFcompare SpecFloat.valid_binary] in *; cbv zeta; intros Hcmp Hy;
    try lia; try discriminate Hcmp.
  - (* y is zero, x finite *)
    pose proof (magnitude_nonneg mx ex) as Hx0.
    destruct sx; [ | discriminate Hcmp].
    set (ax := if 0 <=? ex then _ else _) in *. clearbody ax.
    finish_ranges.
  - (* y finite, x is zero *)
    pose proof (magnitude_nonneg my ey) as Hy0.
    destruct sy; [discriminate Hcmp | ].
    revert Hy. set (ay := if 0 <=? ey then _ else _) in *. clearbody ay.
    finish_ranges.
  - (* both finite *)
    pose proof (magnitude_nonneg mx ex) as Hx0.
    pose proof (magnitude_nonneg my ey) as Hy0.
    change (PosDef.Pos.compare_cont Eq my mx) with (Pos.compare my mx) in Hcmp.
    destruct sy, sx; try discriminate Hcmp.
    + assert (Hmag : (if 0 <=? ey then Z.pos my * 2 ^ ey else Z.pos my / 2 ^ (- ey))
                     <= (if 0 <=? ex then Z.pos mx * 2 ^ ex else Z.pos mx / 2 ^ (- ex))).
      { apply magnitude_mono; try assumption.
        destruct (Z.compare_spec ey ex) as [He | He | He];
          [right | left; exact He | discriminate Hcmp].
        split; [exact He | ].
        destruct (Pos.compare_spec my mx) as [Hm | Hm | Hm]; cbn in Hcmp;
          [subst; lia | lia | discriminate Hcmp]. }
      revert Hy.
      set (ax := if 0 <=? ex then _ else _) in *. clearbody ax.
      set (ay := if 0 <=? ey then _ else _) in *. clearbody ay.
      finish_ranges.
    + revert Hy.
      set (ax := if 0 <=? ex then _ else _) in *. clearbody ax.
      set (ay := if 0 <=? ey then _ else _) in *. clearbody ay.
      finish_ranges.
    + assert (Hmag : (if 0 <=? ex then Z.pos mx * 2 ^ ex else Z.pos mx / 2 ^ (- ex))
                     <= (if 0 <=? ey then Z.pos my * 2 ^ ey else Z.pos my / 2 ^ (- ey))).
      { apply magnitude_mono; try assumption.
        destruct (Z.compare_spec ey ex) as [He | He | He];
          [right | discriminate Hcmp | left; exact He].
        split; [symmetry; exact He | ].
        destruct (Pos.compare_spec my mx) as [Hm | Hm | Hm]; cbn in Hcmp;
          [subst; lia | discriminate Hcmp | lia]. }
      revert Hy.
      set (ax := if 0 <=? ex then _ else _) in *. clearbody ax.
      set (ay := if 0 <=? ey then _ else _) in *. clearbody ay.
      finish_ranges.
Qed.

Section Exponential.
Variable Pow : float -> float -> float.

(** X23. Without jitter the exponential delay never exceeds [max], whatever
    [math.Pow] returns (a NaN or an infinite product included) and whatever
    the attempt, as long as [max] is a float64 value, that is, converts to
    float64 and back unchanged. So only the jitter can take a delay above
    [max]. *)
Theorem exponential_without_jitter_at_most_max e attempt rnd :
  e_jitter e = false ->
  int64_of_float (float_of_int64 (e_max e)) = e_max e ->
  MinInt64 < e_max e ->
  Exponential.NextDelay Pow e attempt rnd <= e_max e
  /\ in_int64 (Exponential.NextDelay Pow e attempt rnd).
Proof.
  intros Hjitter Hexact Hmin.
  assert (Hrange : forall f, in_int64 (int64_of_float f)).
  { intros f. unfold int64_of_float, in_int64.
    destruct (Prim2SF f) as [s | s | | s m ex]; cbv zeta;
      try (unfold MinInt64, MaxInt64; lia).
    finish_ranges. }
  split; [ | apply Hrange].
  unfold Exponential.NextDelay. rewrite Hjitter. unfold capped_delay.
  set (delay := (float_of_int64 (e_min e) * _)%float).
  destruct (float_of_int64 (e_max e) <? delay)%float eqn:Hcap.
  - rewrite Hexact. lia.
  - apply Z.le_trans with (int64_of_float (float_of_int64 (e_max e))); [ | lia].
    apply int64_of_float_le; [exact Hcap | ]. rewrite Hexact. exact Hmin.
Qed.

End Exponential.

Import Scenario.

Lemma exponential_without_jitter_at_most_max_witness :
  Exponential.NextDelay pow_whole (doubling false) 10 0.75%float <= 30 * Second.
Proof.
  destruct (exponential_without_jitter_at_most_max pow_whole (doubling false) 10
              0.75%float eq_refl) as (Hmax & _).
  - vm_compute. reflexivity.
  - vm_compute. reflexivity.
  - exact Hmax.
Defined.

End ExponentialBounds.

(** ** Loaded configurations *)

Module RetryConfigFacts.

Import Retry Backoff RetryConfig.

Lemma CreateStrategy_cases bc :
  (Type_ bc = "exponential"
   /\ CreateStrategy bc
      = inl (OfExponential
               (NewExponentialBackoff
                  {| Min := bc_Min bc; Max := bc_Max bc; Factor := bc_Factor bc;
                     Jitter := bc_Jitter bc |})))
  \/ (Type_ bc = "constant"
      /\ CreateStrategy bc = inl (OfConstant (NewConstantBackoff (Delay bc))))
  \/ (Type_ bc = "linear"
      /\ CreateStrategy bc = inl (OfLinear (NewLinearBackoff (Increment bc) (bc_Max bc))))
  \/ (~ known_type (Type_ bc)
      /\ CreateStrategy bc = inr ("unknown backoff type: " +:+ Type_ bc)).
Proof.
  unfold CreateStrategy, known_type.
  destruct (String.eqb_spec (Type_ bc) "exponential") as [He | He]; [left; auto | ].
  destruct (String.eqb_spec (Type_ bc) "constant") as [Hc | Hc]; [right; left; auto | ].
  destruct (String.eqb_spec (Type_ bc) "linear") as [Hl | Hl]; [right; right; left; auto | ].
  right. right. right. split; [ | reflexivity]. intros [H | [H | H]]; contradiction.
Qed.

(** X7. [CreateStrategy] returns a strategy exactly for the types
    ["exponential"], ["constant"] and ["linear"] (as written, in lower
    case); for any other type it returns the error
    ["unknown backoff type: <type>"]. Every strategy it returns has positive
    delays in order: an exponential one has [0 < min <= max], a constant one a
    positive delay, a linear one [0 < increment <= max], whatever the
    numbers in the configuration. *)
Theorem CreateStrategy_known_types bc :
  ((exists impl, CreateStrategy bc = inl impl) <-> known_type (Type_ bc))
  /\ (~ known_type (Type_ bc) ->
      CreateStrategy bc = inr ("unknown backoff type: " +:+ Type_ bc))
  /\ (forall impl, CreateStrategy bc = inl impl ->
      match impl with
      | OfExponential e => Type_ bc = "exponential" /\ 0 < e_min e <= e_max e
      | OfConstant c => Type_ bc = "constant" /\ 0 < c_delay c
      | OfLinear l => Type_ bc = "linear" /\ lin_valid l
      end).
Proof.
  destruct (CreateStrategy_cases bc)
    as [(Ht & Heq) | [(Ht & Heq) | [(Ht & Heq) | (Ht & Heq)]]]; rewrite Heq;
    (split; [split | split]).
  all: try (intros _; unfold known_type; tauto).
  all: try (intros _; eexists; reflexivity).
  all: try (intros Hno; exfalso; apply Hno; unfold known_type; tauto).
  all: try (intros [impl Himpl]; discriminate Himpl).
  all: try (intros _; reflexivity).
  all: try (intros impl Himpl; discriminate Himpl).
  all: try (intros Hk; exfalso; exact (Ht Hk)).
  - intros impl [= <-]. split; [exact Ht | ].
    pose proof (BackoffFacts.NewExponentialBackoff_delays
                  {| Min := bc_Min bc; Max := bc_Max bc; Factor := bc_Factor bc;
                     Jitter := bc_Jitter bc |}) as Hd.
    cbv zeta in Hd. lia.
  - intros impl [= <-]. split; [exact Ht | ].
    unfold NewConstantBackoff, Second. cbn [c_delay].
    destruct (Z.leb_spec (Delay bc) 0); lia.
  - intros impl [= <-]. split; [exact Ht | ]. apply BackoffFacts.NewLinearBackoff_valid.
Qed.

Section InWorld.
Context {OpErr World : Type}.
Variable Pow : float -> float -> float.
Variable rand_Float64 : World -> float * World.

Implicit Types (rc : RetryConfig) (E : Env OpErr World) (w : World).

(** X8. [ToConfig] fails exactly when [CreateStrategy] fails, with the same
    error. The configuration it returns carries [MaxAttempts] over, always
    has a strategy and no [OnRetry] observer, so [Do] can refuse it only for
    a negative [MaxAttempts]: then the operation is never invoked; otherwise
    it is invoked at least once. *)
Theorem ToConfig_feeds_Do rc :
  (forall err, ToConfig Pow rand_Float64 rc = inr err (A := Config OpErr World)
               <-> CreateStrategy (rc_Backoff rc) = inr err)
  /\ (forall c, ToConfig Pow rand_Float64 rc = inl c ->
        MaxAttempts c = rc_MaxAttempts rc
        /\ Strategy_ c <> None
        /\ OnRetry c = None
        /\ (Validate c = None <-> 0 <= rc_MaxAttempts rc)
        /\ forall E w,
            (rc_MaxAttempts rc < 0 -> calls (trace (Do c E w)) = 0)
            /\ (0 <= rc_MaxAttempts rc -> 1 <= calls (trace (Do c E w)))).
Proof.
  unfold ToConfig. destruct (CreateStrategy (rc_Backoff rc)) as [impl | msg]; split.
  - intros err. split; discriminate.
  - intros c [= <-]. cbn [MaxAttempts Strategy_ OnRetry].
    split; [reflexivity | ]. split; [discriminate | ]. split; [reflexivity | ].
    split.
    + unfold Validate. cbn [MaxAttempts Strategy_].
      destruct (Z.ltb_spec (rc_MaxAttempts rc) 0); split; intros; try lia; try reflexivity;
        discriminate.
    + intros E w. split.
      * intros Hneg. unfold Do, Validate. cbn [MaxAttempts].
        destruct (Z.ltb_spec (rc_MaxAttempts rc) 0); [reflexivity | lia].
      * intros Hpos. unfold Do, Validate. cbn [MaxAttempts Strategy_].
        destruct (Z.ltb_spec (rc_MaxAttempts rc) 0); [lia | ].
        destruct (fn E w) as [[err|] w1];
          [ | unfold calls; cbn [trace List.filter is_call length]; lia].
        destruct (rc_MaxAttempts rc =? 0);
          [unfold calls; cbn [trace List.filter is_call length]; lia | ].
        cbn [trace prepend]. rewrite RetryFacts.calls_app.
        pose proof (RetryRuns.loop_sleeps
                      {| MaxAttempts := rc_MaxAttempts rc;
                         Strategy_ := Some (dispatch Pow rand_Float64 impl);
                         OnRetry := None; Logger := None |}
                      (dispatch Pow rand_Float64 impl) E
                      (Z.to_nat (rc_MaxAttempts rc)) 0 err w1) as (H1 & H2 & _).
        cbn [MaxAttempts] in *. unfold calls in *. cbn [List.filter is_call length]. lia.
  - intros err. split; intros [= ->]; reflexivity.
  - intros c Hc. discriminate Hc.
Qed.

(** X9. A configuration loaded with type ["constant"] or ["linear"] and
    [MaxAttempts >= 0], run on an operation that always fails under a context
    that is never done: [Do] sleeps exactly [MaxAttempts] times, before
    retry [k] for the delay the strategy gives for attempt [k]; for the
    constant type every sleep lasts the configured delay. *)
Theorem loaded_backoff_is_slept rc c E w :
  ToConfig Pow rand_Float64 rc = inl c ->
  0 <= rc_MaxAttempts rc ->
  always_fails E -> never_cancelled E ->
  (Type_ (rc_Backoff rc) = "constant" ->
   slept (trace (Do c E w))
   = (fun _ => c_delay (NewConstantBackoff (Delay (rc_Backoff rc))))
       <$> seqZ 0 (rc_MaxAttempts rc))
  /\ (Type_ (rc_Backoff rc) = "linear" ->
      slept (trace (Do c E w))
      = Linear.NextDelay (NewLinearBackoff (Increment (rc_Backoff rc))
                                           (bc_Max (rc_Backoff rc)))
          <$> seqZ 0 (rc_MaxAttempts rc)).
Proof.
  intros Hc Hpos Hfail Hlive.
  assert (Hsched : forall impl (d : Z -> Z),
            CreateStrategy (rc_Backoff rc) = inl impl ->
            (forall a w', NextDelay (dispatch Pow rand_Float64 impl) a w' = (d a, w')) ->
            slept (trace (Do c E w)) = d <$> seqZ 0 (rc_MaxAttempts rc)).
  { intros impl d Himpl Hpure. unfold ToConfig in Hc. rewrite Himpl in Hc.
    injection Hc as <-. unfold Do, Validate. cbn [MaxAttempts Strategy_].
    destruct (Z.ltb_spec (rc_MaxAttempts rc) 0); [lia | ].
    destruct (Hfail w) as [err Herr]. destruct (fn E w) as [r w1]. cbn in Herr. subst r.
    destruct (Z.eqb_spec (rc_MaxAttempts rc) 0) as [H0 | Hne]; [rewrite H0; reflexivity | ].
    cbn [trace prepend app slept].
    set (cfg := {| MaxAttempts := rc_MaxAttempts rc;
                   Strategy_ := Some (dispatch Pow rand_Float64 impl);
                   OnRetry := None; Logger := None |}).
    pose proof (RetryRuns.loop_schedule cfg _ E d (Z.to_nat (rc_MaxAttempts rc)) Hpure
                  0 err w1) as (Hs & _).
    pose proof (RetryRuns.loop_sleeps cfg (dispatch Pow rand_Float64 impl) E
                  (Z.to_nat (rc_MaxAttempts rc)) 0 err w1) as (Hcs & _).
    pose proof (RetryFacts.retry_loop_exhausts cfg (dispatch Pow rand_Float64 impl) E
                  (Z.to_nat (rc_MaxAttempts rc)) Hfail Hlive 0 err w1) as (Hn & _).
    cbv zeta in Hs, Hcs, Hn.
    pose proof (RetryRuns.loop_sleeps cfg (dispatch Pow rand_Float64 impl) E
                  (Z.to_nat (rc_MaxAttempts rc)) 0 err w1) as (_ & Hlen & Hmax).
    cbv zeta in Hlen, Hmax.
    rewrite Hs. f_equal. f_equal. lia. }
  split; intros Ht.
  - destruct (CreateStrategy_cases (rc_Backoff rc))
      as [(Ht' & _) | [(_ & Heq) | [(Ht' & _) | (Hno & _)]]];
      try (rewrite Ht in Ht'; discriminate Ht').
    + apply (Hsched _ _ Heq). intros a w'. reflexivity.
    + exfalso. apply Hno. right. left. exact Ht.
  - destruct (CreateStrategy_cases (rc_Backoff rc))
      as [(Ht' & _) | [(Ht' & _) | [(_ & Heq) | (Hno & _)]]];
      try (rewrite Ht in Ht'; discriminate Ht').
    + apply (Hsched _ _ Heq). intros a w'. reflexivity.
    + exfalso. apply Hno. right. right. exact Ht.
Qed.

End InWorld.

Import Scenario.

Lemma CreateStrategy_known_types_witness :
  CreateStrategy (rc_Backoff (loaded "Exponential" 3))
  = inr "unknown backoff type: Exponential"
  /\ exists l, CreateStrategy (rc_Backoff (loaded "linear" 3)) = inl (OfLinear l)
               /\ lin_valid l.
Proof.
  split.
  - destruct (CreateStrategy_known_types (rc_Backoff (loaded "Exponential" 3)))
      as (_ & Hunknown & _).
    apply Hunknown. intros [Hk | [Hk | Hk]]; discriminate Hk.
  - destruct (CreateStrategy_known_types (rc_Backoff (loaded "linear" 3)))
      as (_ & _ & Hok).
    eexists. split; [reflexivity | ]. exact (proj2 (Hok _ eq_refl)).
Defined.

Lemma ToConfig_feeds_Do_witness :
  exists c,
    ToConfig pow_whole half (loaded "linear" 3) = inl c
    /\ Validate (OpErr := nat) c = None
    /\ 1 <= calls (trace (Do c (live_env always_failing) 0%nat)).
Proof.
  destruct (ToConfig_feeds_Do (OpErr := nat) pow_whole half (loaded "linear" 3))
    as (_ & Hok).
  eexists. split; [reflexivity | ].
  destruct (Hok _ eq_refl) as (_ & _ & _ & Hvalid & Hdo).
  split; [apply Hvalid; cbn; lia | ].
  apply (Hdo (live_env always_failing) 0%nat). cbn. lia.
Defined.

Lemma loaded_backoff_is_slept_witness :
  (forall c, ToConfig pow_whole half (loaded "constant" 3) = inl c ->
     slept (trace (Do c (live_env always_failing) 0%nat))
     = [1 * Second; 1 * Second; 1 * Second])
  /\ (forall c, ToConfig pow_whole half (loaded "linear" 3) = inl c ->
        slept (trace (Do c (live_env always_failing) 0%nat))
        = [1 * Second; 2 * Second; 3 * Second]).
Proof.
  split; intros c Hc.
  - destruct (loaded_backoff_is_slept pow_whole half (loaded "constant" 3) c
                (live_env always_failing) 0%nat Hc ltac:(cbn; lia)
                RetryFacts.always_failing_fails
                (RetryFacts.live_env_never_cancelled always_failing)) as (Hconst & _).
    rewrite (Hconst eq_refl). vm_compute. reflexivity.
  - destruct (loaded_backoff_is_slept pow_whole half (loaded "linear" 3) c
                (live_env always_failing) 0%nat Hc ltac:(cbn; lia)
                RetryFacts.always_failing_fails
                (RetryFacts.live_env_never_cancelled always_failing)) as (_ & Hlin).
    rewrite (Hlin eq_refl). vm_compute. reflexivity.
Defined.

End RetryConfigFacts.

(** ** The rate limiter, its strategies and its log *)

Module LimiterFacts.

Import GoStrings Http Gobreaker Middleware.

Lemma append_assoc (a b c : string) : (a +:+ b) +:+ c = a +:+ b +:+ c.
Proof.
  induction a as [|x a IH]; [reflexivity | ].
  change (String x ((a +:+ b) +:+ c) = String x (a +:+ b +:+ c)). rewrite IH. reflexivity.
Qed.

Lemma append_empty (a : string) : a +:+ "" = a.
Proof.
  induction a as [|x a IH]; [reflexivity | ].
  change (String x (a +:+ "") = String x a). rewrite IH. reflexivity.
Qed.

Lemma Get_set_header_eq w k v : Get (RespHeader (set_header w k v)) k = v.
Proof. unfold Get, set_header, Set_. cbn [RespHeader]. rewrite lookup_insert_eq. reflexivity. Qed.

Lemma Get_set_header_ne w k v k' :
  CanonicalMIMEHeaderKey k <> CanonicalMIMEHeaderKey k' ->
  Get (RespHeader (set_header w k v)) k' = Get (RespHeader w) k'.
Proof.
  intros Hne. unfold Get, set_header, Set_. cbn [RespHeader].
  rewrite lookup_insert_ne by assumption. reflexivity.
Qed.

Ltac other_header := rewrite Get_set_header_ne by (vm_compute; discriminate).

(** What [http.Error] does to a response that has no status yet. *)
Lemma Error_response w msg code :
  Status (Http.Error w msg code)
  = match Status w with Some c => Some c | None => Some code end
  /\ Body (Http.Error w msg code) = Body w +:+ msg +:+ String (ascii_of_N 10) "".
Proof.
  unfold Http.Error, Write, WriteHeader, set_header, del_header. cbn [Status Body].
  destruct (Status w); split; reflexivity.
Qed.

Section WithNet.
Context `{GoNet}.

Implicit Types (rl : RateLimiter) (r : Request).

Lemma parseTrustedProxies_In cidrs ipnet :
  In ipnet (parseTrustedProxies cidrs)
  <-> exists cidr, In cidr cidrs /\ ParseCIDR cidr = Some ipnet.
Proof.
  induction cidrs as [|c cidrs IH]; cbn [parseTrustedProxies].
  - split; [intros [] | intros (c & [] & _)].
  - destruct (ParseCIDR c) as [n|] eqn:Hc.
    + cbn [In]. rewrite IH. split.
      * intros [<- | (c' & Hin & Hp)]; [exists c; auto | exists c'; auto].
      * intros (c' & [<- | Hin] & Hp); [left; congruence | right; exists c'; auto].
    + rewrite IH. split.
      * intros (c' & Hin & Hp). exists c'. cbn [In]. auto.
      * intros (c' & [<- | Hin] & Hp); [congruence | exists c'; auto].
Qed.

Lemma LogEvent_silent s ev sev r det : silent s -> LogEvent s ev sev r det = [].
Proof. intros [-> | (sl & -> & Hoff)]; cbn; [ | rewrite Hoff]; reflexivity. Qed.

Lemma ByIP_silent rl r : silent (securityLogger rl) -> snd (ByIP rl r) = [].
Proof.
  intros Hs. unfold ByIP. destruct (isTrustedProxy rl _).
  - destruct (negb _); reflexivity.
  - destruct (negb _); [ | reflexivity]. cbn [snd].
    destruct (securityLogger rl) as [sl|] eqn:Hsl; [ | reflexivity].
    unfold LogIPSpoofing. apply LogEvent_silent. exact Hs.
Qed.

(** X10. The trusted proxies of a limiter built by [NewRateLimiter] are the
    networks of the CIDR strings that parse; the others are dropped without
    an error. An address is trusted exactly when it parses and one of those
    networks contains it. When no CIDR parses, the by-IP key is the peer
    address for every request: X-Forwarded-For is never honoured. *)
Theorem trusted_proxies_from_cidrs redis on cidrs sl :
  let rl := NewRateLimiter redis on cidrs sl in
  (forall ip,
     isTrustedProxy rl ip = true
     <-> exists cidr ipnet parsed,
           In cidr cidrs /\ ParseCIDR cidr = Some ipnet
           /\ ParseIP ip = Some parsed /\ Contains ipnet parsed = true)
  /\ ((forall cidr, In cidr cidrs -> ParseCIDR cidr = None) ->
      trustedProxies rl = []
      /\ forall r, fst (ByIP rl r) = parseIP (RemoteAddr r)).
Proof.
  cbv zeta. split.
  - intros ip. unfold isTrustedProxy, NewRateLimiter. cbn [trustedProxies].
    destruct (ParseIP ip) as [parsed|].
    + rewrite existsb_exists. split.
      * intros (ipnet & Hin & Hc). apply parseTrustedProxies_In in Hin.
        destruct Hin as (cidr & Hin & Hp). exists cidr, ipnet, parsed. auto.
      * intros (cidr & ipnet & parsed' & Hin & Hp & [= <-] & Hc).
        exists ipnet. split; [ | exact Hc]. apply parseTrustedProxies_In. exists cidr. auto.
    + split; [discriminate | intros (c0 & n0 & p0 & Hin & Hc & Hp & Hk); discriminate Hp].
  - intros Hnone.
    assert (Hempty : parseTrustedProxies cidrs = []).
    { destruct (parseTrustedProxies cidrs) as [|n l] eqn:Hl; [reflexivity | ].
      assert (Hin : In n (parseTrustedProxies cidrs)) by (rewrite Hl; left; reflexivity).
      apply parseTrustedProxies_In in Hin. destruct Hin as (c & Hin & Hp).
      rewrite (Hnone c Hin) in Hp. discriminate Hp. }
    split; [exact Hempty | ].
    intros r. unfold ByIP, isTrustedProxy, NewRateLimiter. cbn [trustedProxies securityLogger].
    rewrite Hempty. destruct (ParseIP (parseIP (RemoteAddr r))); cbn [existsb];
      destruct (negb _); reflexivity.
Qed.

(** X11. The keys of the strategies. [ByRoute] prefixes the by-IP key with
    ["route:<route>:"] and reports what [ByIP] reports. [ByUser] yields
    ["user:<id>"] for a request that carries a user id, without looking at
    the peer or at X-Forwarded-For, so nothing is reported as spoofing for
    it; without a user id it is [ByIP]. Neither of the two keys is ever
    empty, so the store is asked under ["ratelimit:"] followed by the key. *)
Theorem keys_of_the_strategies rl route r limit window burst :
  ByRoute route rl r = ("route:" +:+ route +:+ ":" +:+ fst (ByIP rl r), snd (ByIP rl r))
  /\ store_key {| Limit_ := limit; Window := window; Burst := burst;
                  Strategy := ByRoute route rl |} r
     = "ratelimit:route:" +:+ route +:+ ":" +:+ fst (ByIP rl r)
  /\ (forall uid, ctx_user_id r = Some uid ->
        ByUser rl r = ("user:" +:+ uid, [])
        /\ store_key {| Limit_ := limit; Window := window; Burst := burst;
                        Strategy := ByUser rl |} r
           = "ratelimit:user:" +:+ uid)
  /\ (ctx_user_id r = None -> ByUser rl r = ByIP rl r).
Proof.
  split; [ | split; [ | split]].
  - unfold ByRoute. destruct (ByIP rl r). reflexivity.
  - unfold store_key. cbn [Strategy]. unfold ByRoute. destruct (ByIP rl r). reflexivity.
  - intros uid Huid. unfold store_key. cbn [Strategy]. unfold ByUser. rewrite Huid.
    split; reflexivity.
  - intros Hnone. unfold ByUser. rewrite Hnone. reflexivity.
Qed.

Lemma composite_from_tail strategies r : forall i key,
  composite_from (S i) strategies r key
  = (key +:+ tail_keys strategies r, concat (map (fun s => snd (s r)) strategies)).
Proof.
  induction strategies as [|s rest IH]; intros i key; cbn [composite_from tail_keys map concat].
  - rewrite append_empty. reflexivity.
  - destruct (s r) as [k evs] eqn:Hs. rewrite IH. cbn [fst snd].
    rewrite !append_assoc. reflexivity.
Qed.

Lemma concat_tail_keys strategies r s :
  String.concat ":" (map (fun s => fst (s r)) (s :: strategies))
  = fst (s r) +:+ tail_keys strategies r.
Proof.
  revert s. induction strategies as [|s' rest IH]; intros s.
  - cbn [map String.concat tail_keys]. rewrite append_empty. reflexivity.
  - change (String.concat ":" (map (fun s => fst (s r)) (s :: s' :: rest)))
      with (fst (s r) +:+ ":" +:+ String.concat ":" (map (fun s => fst (s r)) (s' :: rest))).
    rewrite IH. reflexivity.
Qed.

(** X12. [Composite] joins the keys of its strategies with [":"], in their
    order, and reports what they report, in that order. In particular the
    composite of no strategy yields the empty key, for which [Limit] asks
    the store under ["ratelimit:default"], and the composite of one
    strategy is that strategy. *)
Theorem Composite_joins strategies s r limit window burst :
  Composite strategies r
  = (String.concat ":" (map (fun s => fst (s r)) strategies),
     concat (map (fun s => snd (s r)) strategies))
  /\ store_key {| Limit_ := limit; Window := window; Burst := burst;
                  Strategy := Composite [] |} r = "ratelimit:default"
  /\ Composite [s] r = s r.
Proof.
  split; [ | split].
  - unfold Composite. destruct strategies as [|s0 rest]; [reflexivity | ].
    rewrite concat_tail_keys. cbn [composite_from map concat].
    destruct (s0 r) as [k evs]. rewrite composite_from_tail. reflexivity.
  - reflexivity.
  - unfold Composite. cbn [composite_from]. destruct (s r) as [k evs].
    cbn. rewrite app_nil_r. reflexivity.
Qed.

Lemma ReqHeader_rewrite_remote r : ReqHeader (rewrite_remote r) = ReqHeader r.
Proof.
  unfold rewrite_remote.
  destruct (negb (String.eqb (Get (ReqHeader r) "X-Real-IP") "")); [reflexivity | ].
  destruct (negb (String.eqb (Get (ReqHeader r) "X-Forwarded-For") "")); [ | reflexivity].
  destruct (Split _ ","); [reflexivity | ].
  destruct (ParseIP _); reflexivity.
Qed.

(** X13. [RealIP] in front of the limiter. Applying [RealIP] twice is
    applying it once. Behind it, a request with a non-empty X-Real-IP is
    keyed by that header, whatever its peer: with no X-Forwarded-For the
    by-IP key is the header (its port stripped if it has one), and when the
    header names an address inside a trusted range the key is the first
    entry of X-Forwarded-For; in neither case is anything reported as
    spoofing. *)
Theorem RealIP_decides_the_key rl r :
  let xri := Get (ReqHeader r) "X-Real-IP" in
  let xff := Get (ReqHeader r) "X-Forwarded-For" in
  rewrite_remote (rewrite_remote r) = rewrite_remote r
  /\ (xri <> "" -> xff = "" -> ByIP rl (rewrite_remote r) = (parseIP xri, []))
  /\ (xri <> "" -> xff <> "" -> in_trusted_range rl (parseIP xri) ->
      ByIP rl (rewrite_remote r) = (TrimSpace (first_entry xff), [])).
Proof.
  cbv zeta. split; [ | split].
  - pose proof (ReqHeader_rewrite_remote r) as Hh.
    unfold rewrite_remote at 1. rewrite Hh.
    unfold rewrite_remote.
    destruct (negb (String.eqb (Get (ReqHeader r) "X-Real-IP") "")); [reflexivity | ].
    destruct (negb (String.eqb (Get (ReqHeader r) "X-Forwarded-For") "")); [ | reflexivity].
    destruct (Split _ ","); [reflexivity | ].
    destruct (ParseIP _); reflexivity.
  - intros Hxri Hxff.
    assert (Hr : RemoteAddr (rewrite_remote r) = Get (ReqHeader r) "X-Real-IP").
    { unfold rewrite_remote. rewrite (MiddlewareFacts.nonempty_eqb _ Hxri). reflexivity. }
    unfold ByIP. rewrite ReqHeader_rewrite_remote, Hr, (MiddlewareFacts.empty_eqb _ Hxff).
    destruct (isTrustedProxy rl _); reflexivity.
  - intros Hxri Hxff Htr.
    assert (Hr : RemoteAddr (rewrite_remote r) = Get (ReqHeader r) "X-Real-IP").
    { unfold rewrite_remote. rewrite (MiddlewareFacts.nonempty_eqb _ Hxri). reflexivity. }
    apply MiddlewareFacts.isTrustedProxy_spec in Htr.
    unfold ByIP. rewrite ReqHeader_rewrite_remote, Hr, Htr,
      (MiddlewareFacts.nonempty_eqb _ Hxff). reflexivity.
Qed.

(** X14. What the security log holds. Every record carries as [ip] the whole
    X-Forwarded-For header when the request has one, else X-Real-IP, else
    the peer address with its port; its level is Error for the severities
    critical and high, Warn for medium and Info for any other. So a
    spoofing report of [ByIP] names the suspected header both as [ip] and as
    [suspected_ip], and the peer that sent it appears nowhere in it. *)
Theorem records_carry_the_forwarded_ip s eventType sev r det rl :
  let xff := Get (ReqHeader r) "X-Forwarded-For" in
  let xri := Get (ReqHeader r) "X-Real-IP" in
  (forall rec, In rec (LogEvent s eventType sev r det) ->
     ip rec = (if String.eqb xff "" then if String.eqb xri "" then RemoteAddr r else xri
               else xff)
     /\ level rec = (if String.eqb sev "critical" || String.eqb sev "high" then LError
                     else if String.eqb sev "medium" then LWarn else LInfo)
     /\ event_type rec = eventType /\ severity rec = sev /\ details rec = det)
  /\ (forall rec, In rec (snd (ByIP rl r)) ->
        xff <> "" /\ ip rec = xff /\ details rec !! "suspected_ip" = Some xff
        /\ level rec = LError /\ fst (ByIP rl r) = parseIP (RemoteAddr r)).
Proof.
  cbv zeta.
  assert (Hlog : forall ev sv d rec, In rec (LogEvent s ev sv r d) ->
            ip rec = (if String.eqb (Get (ReqHeader r) "X-Forwarded-For") ""
                      then if String.eqb (Get (ReqHeader r) "X-Real-IP") ""
                           then RemoteAddr r else Get (ReqHeader r) "X-Real-IP"
                      else Get (ReqHeader r) "X-Forwarded-For")
            /\ level rec = (if String.eqb sv "critical" || String.eqb sv "high" then LError
                            else if String.eqb sv "medium" then LWarn else LInfo)
            /\ event_type rec = ev /\ severity rec = sv /\ details rec = d).
  { intros ev sv d rec. unfold LogEvent. destruct s as [sl|]; [ | intros []].
    destruct (negb (logger_attached sl)); [intros [] | ].
    intros [<- | []]. cbn [ip level event_type severity details]. unfold getRealIP.
    destruct (String.eqb (Get (ReqHeader r) "X-Forwarded-For") "");
      destruct (String.eqb (Get (ReqHeader r) "X-Real-IP") ""); repeat split; reflexivity. }
  split; [apply Hlog | ].
  clear Hlog. intros rec. unfold ByIP.
  destruct (isTrustedProxy rl _).
  { destruct (negb _); intros []. }
  destruct (String.eqb_spec (Get (ReqHeader r) "X-Forwarded-For") "") as [He | Hne];
    cbn [negb snd]; [intros [] | ].
  destruct (securityLogger rl) as [sl|]; [ | intros []].
  unfold LogIPSpoofing, LogEvent.
  destruct (negb (logger_attached sl)); [intros [] | ].
  intros [<- | []]. cbn [ip level details fst]. unfold getRealIP.
  destruct (String.eqb_spec (Get (ReqHeader r) "X-Forwarded-For") "") as [He | _];
    [contradiction | ].
  cbn [negb]. repeat split; try reflexivity; try assumption; apply lookup_insert_eq.
Qed.

(** X15. [LogAuthEvent] on a logger with a sink writes one record: at level
    Error for a failed login and a locked account, at level Info for a
    successful login, a refreshed or revoked token and a changed password,
    at level Warn for every other event type. The record holds the e-mail
    address and the outcome as ["true"] or ["false"], and the reason only
    when one is given. Without a sink nothing is written. *)
Theorem LogAuthEvent_levels s eventType email r success reason :
  (forall sl, s = Some sl -> logger_attached sl = true ->
     exists rec,
       LogAuthEvent s eventType email r success reason = [rec]
       /\ event_type rec = eventType
       /\ level rec
          = (if String.eqb eventType "login_failed" || String.eqb eventType "account_locked"
             then LError
             else if String.eqb eventType "login_success"
                     || String.eqb eventType "token_refreshed"
                     || String.eqb eventType "token_revoked"
                     || String.eqb eventType "password_changed"
                  then LInfo
                  else LWarn)
       /\ details rec !! "email" = Some email
       /\ details rec !! "success" = Some (if success then "true" else "false")
       /\ details rec !! "reason" = (if String.eqb reason "" then None else Some reason))
  /\ (silent s -> LogAuthEvent s eventType email r success reason = []).
Proof.
  split.
  - intros sl -> Hatt. unfold LogAuthEvent, LogEvent. rewrite Hatt. cbn [negb].
    eexists. split; [reflexivity | ]. cbn [event_type level details].
    split; [reflexivity | ]. split.
    { unfold EventLoginFailed, EventAccountLocked, EventLoginSuccess, EventTokenRefreshed,
        EventTokenRevoked, EventPasswordChanged.
      destruct (String.eqb eventType "login_failed" || String.eqb eventType "account_locked");
        [reflexivity | ].
      destruct (String.eqb eventType "login_success"
                || String.eqb eventType "token_refreshed"
                || String.eqb eventType "token_revoked"
                || String.eqb eventType "password_changed"); reflexivity. }
    unfold boolToString.
    destruct (String.eqb reason ""); cbn [negb].
    + split; [apply lookup_insert_eq | ].
      split; [rewrite lookup_insert_ne by discriminate; apply lookup_insert_eq | ].
      rewrite !lookup_insert_ne by discriminate. apply lookup_empty.
    + split; [rewrite lookup_insert_ne by discriminate; apply lookup_insert_eq | ].
      split; [rewrite !lookup_insert_ne by discriminate; apply lookup_insert_eq | ].
      apply lookup_insert_eq.
  - intros [-> | (sl & -> & Hoff)]; unfold LogAuthEvent; [ | rewrite Hoff]; reflexivity.
Qed.

Lemma rune_check : rune_never_decimal_upto 2048 = true.
Proof. vm_compute. reflexivity. Qed.

Lemma rune_is_not_decimal_upto bound n :
  rune_never_decimal_upto bound = true -> 0 <= n < bound ->
  string_of_rune n <> Itoa n.
Proof.
  unfold rune_never_decimal_upto. intros Hall Hn Heq.
  rewrite forallb_forall in Hall.
  assert (Hin : In n (seqZ 0 bound)) by (apply list_elem_of_In, elem_of_seqZ; lia).
  specialize (Hall n Hin). unfold rune_is_not_decimal in Hall.
  rewrite Heq, String.eqb_refl in Hall. discriminate Hall.
Qed.

Lemma string_of_rune_ascii n :
  0 <= n < 128 -> string_of_rune n = String (ascii_of_N (Z.to_N n)) "".
Proof.
  intros Hn. unfold string_of_rune.
  replace ((n + 2 ^ 31) mod 2 ^ 32 - 2 ^ 31) with n by (rewrite Z.mod_small; lia).
  destruct (Z.ltb_spec n 0); [lia | ].
  destruct (Z.ltb_spec 1114111 n); [lia | ].
  destruct (Z.leb_spec 55296 n); [lia | ].
  cbn [orb andb].
  destruct (Z.ltb_spec n 128); [reflexivity | lia].
Qed.

(** X16. The record of an exceeded limit is written at level Warn and names
    the window; its ["limit"] attribute is [string(rune(limit))], the
    character whose code point is the limit, and for no limit from 0 to 2047
    is that the decimal numeral of the limit. Below 128 it is the single
    byte [limit]. *)
Theorem rate_limit_record_limit_attribute sl r limit window :
  logger_attached sl = true -> 0 <= limit < 2048 ->
  exists rec,
    LogRateLimitExceeded (Some sl) r limit window = [rec]
    /\ level rec = LWarn
    /\ event_type rec = "rate_limit_exceeded"
    /\ details rec !! "window" = Some window
    /\ details rec !! "limit" = Some (string_of_rune limit)
    /\ string_of_rune limit <> Itoa limit
    /\ (limit < 128 -> string_of_rune limit = String (ascii_of_N (Z.to_N limit)) "").
Proof.
  intros Hatt Hlimit. unfold LogRateLimitExceeded, LogEvent. rewrite Hatt. cbn [negb].
  eexists. split; [reflexivity | ]. cbn [level event_type details].
  split; [reflexivity | ]. split; [reflexivity | ].
  split; [rewrite lookup_insert_ne by discriminate; apply lookup_insert_eq | ].
  split; [apply lookup_insert_eq | ]. split.
  - exact (rune_is_not_decimal_upto 2048 limit rune_check Hlimit).
  - intros Hsmall. apply string_of_rune_ascii. lia.
Qed.

(** *** The handler built by [Limit] *)

Section Handler.
Context {World : Type}.

Implicit Types (E : LimitEnv (World := World)) (rule : RateLimitRule).
Implicit Types (next : Handler (World := World)) (w : ResponseWriter) (st : World).

Lemma Limit_off rl E rule next w r st :
  negb (enabled rl) || negb (redis_attached rl) = true ->
  Limit rl E rule next w r st = serve_next next w r st [].
Proof. intros Hoff. unfold Limit. rewrite Hoff. reflexivity. Qed.

Lemma Limit_on_or_off rl :
  (enabled rl = true /\ redis_attached rl = true)
  \/ negb (enabled rl) || negb (redis_attached rl) = true.
Proof. destruct (enabled rl), (redis_attached rl); auto. Qed.

(** X17. A limiter that is disabled, or that has no store, is transparent:
    the handler built by [Limit] is the next handler on the same response
    and request. No quota header is set, the strategy is not evaluated (so a
    forged X-Forwarded-For is not reported either), and neither the rule
    nor the store matters. *)
Theorem Limit_off_is_transparent rl E rule next w r st :
  enabled rl = false \/ redis_attached rl = false ->
  let o := Limit rl E rule next w r st in
  response o = fst (next w r st)
  /\ after o = snd (next w r st)
  /\ passed_on o = true
  /\ security_log o = []
  /\ (forall E' rule', Limit rl E' rule' next w r st = o)
  /\ (forall limit window burst route,
        GlobalLimit rl E limit window burst next w r st = o
        /\ PerUserLimit rl E limit window burst next w r st = o
        /\ PerRouteLimit rl E route limit window burst next w r st = o).
Proof.
  intros Hoff. cbv zeta.
  assert (Hguard : negb (enabled rl) || negb (redis_attached rl) = true)
    by (destruct Hoff as [-> | ->]; [reflexivity | apply orb_true_r]).
  unfold GlobalLimit, PerUserLimit, PerRouteLimit.
  rewrite (Limit_off rl E rule next w r st Hguard).
  unfold serve_next. destruct (next w r st) as [w' st'] eqn:Hnext.
  cbn [response after passed_on security_log fst snd].
  repeat split; try reflexivity;
    try (intros; rewrite Limit_off by exact Hguard; unfold serve_next; rewrite Hnext;
         reflexivity);
    rewrite Limit_off by exact Hguard; unfold serve_next; rewrite Hnext; reflexivity.
Qed.

(** X18. When the store reports the quota as used up ([Allowed = 0]), the
    request is answered with 429 Too Many Requests and the body
    ["Rate limit exceeded"]; the next handler does not run. The response
    carries the limit, the remaining quota, the reset time in seconds since
    the epoch and Retry-After in whole seconds. The security log receives
    what the strategy reported, then the rate-limit-exceeded record. *)
Theorem Limit_quota_exceeded rl E rule next w r st res st1 :
  enabled rl = true -> redis_attached rl = true ->
  execute_allow E (store_key rule r) (store_limit rule) st = (inl res, st1) ->
  Allowed res = 0 ->
  let o := Limit rl E rule next w r st in
  let h := RespHeader (response o) in
  passed_on o = false
  /\ after o = st1
  /\ (Status w = None -> Status (response o) = Some 429)
  /\ Body (response o) = Body w +:+ "Rate limit exceeded" +:+ String (ascii_of_N 10) ""
  /\ Get h "X-RateLimit-Limit" = Itoa (Limit_ rule)
  /\ Get h "X-RateLimit-Remaining" = Itoa (Remaining res)
  /\ Get h "X-RateLimit-Reset" = Itoa ((time_Now E st1 + ResetAfter res) / Second)
  /\ Get h "Retry-After" = Itoa (whole_seconds (RetryAfter res))
  /\ security_log o
     = snd (Strategy rule r)
       ++ LogRateLimitExceeded (securityLogger rl) r (Limit_ rule)
            (Duration_String E (Window rule)).
Proof.
  intros Hen Hre Hex Hzero. cbv zeta.
  rewrite MiddlewareFacts.Limit_reaches_store, Hex by assumption. cbv zeta.
  rewrite Hzero. cbn [Z.eqb passed_on after response security_log].
  split; [reflexivity | ]. split; [reflexivity | ].
  destruct (Error_response
              (set_header
                 (set_header
                    (set_header (set_header w "X-RateLimit-Limit" (Itoa (Limit_ rule)))
                       "X-RateLimit-Remaining" (Itoa (Remaining res)))
                    "X-RateLimit-Reset" (Itoa ((time_Now E st1 + ResetAfter res) / Second)))
                 "Retry-After" (Itoa (whole_seconds (RetryAfter res))))
              "Rate limit exceeded" StatusTooManyRequests) as (Hst & Hbody).
  split; [intros Hw; rewrite Hst; cbn [set_header Status]; rewrite Hw; reflexivity | ].
  split; [rewrite Hbody; reflexivity | ].
  rewrite !MiddlewareFacts.Error_keeps_quota_headers by (cbn; tauto).
  split; [do 3 other_header; apply Get_set_header_eq | ].
  split; [do 2 other_header; apply Get_set_header_eq | ].
  split; [other_header; apply Get_set_header_eq | ].
  split; [apply Get_set_header_eq | reflexivity].
Qed.

(** X19. When the store grants the request ([Allowed] is not 0), the next
    handler runs, on the request as it came and on a response that differs
    from the incoming one in the three quota headers only: no status is
    written, the body is untouched and Retry-After is not set. *)
Theorem Limit_grants_with_quota_headers rl E rule next w r st res st1 :
  enabled rl = true -> redis_attached rl = true ->
  execute_allow E (store_key rule r) (store_limit rule) st = (inl res, st1) ->
  Allowed res <> 0 ->
  let o := Limit rl E rule next w r st in
  exists w1,
    response o = fst (next w1 r st1)
    /\ after o = snd (next w1 r st1)
    /\ passed_on o = true
    /\ Status w1 = Status w /\ Body w1 = Body w
    /\ Get (RespHeader w1) "X-RateLimit-Limit" = Itoa (Limit_ rule)
    /\ Get (RespHeader w1) "X-RateLimit-Remaining" = Itoa (Remaining res)
    /\ Get (RespHeader w1) "X-RateLimit-Reset"
       = Itoa ((time_Now E st1 + ResetAfter res) / Second)
    /\ (forall k, ~ In (CanonicalMIMEHeaderKey k)
                    (map CanonicalMIMEHeaderKey
                       ["X-RateLimit-Limit"; "X-RateLimit-Remaining"; "X-RateLimit-Reset"]) ->
          Get (RespHeader w1) k = Get (RespHeader w) k)
    /\ security_log o = snd (Strategy rule r).
Proof.
  intros Hen Hre Hex Hok. cbv zeta.
  rewrite MiddlewareFacts.Limit_reaches_store, Hex by assumption. cbv zeta.
  destruct (Z.eqb_spec (Allowed res) 0) as [H0 | _]; [contradiction | ].
  eexists. unfold serve_next.
  destruct (next _ r st1) as [w' st'] eqn:Hnext.
  cbn [response after passed_on security_log].
  split; [rewrite Hnext; reflexivity | ]. split; [rewrite Hnext; reflexivity | ].
  split; [reflexivity | ]. split; [reflexivity | ]. split; [reflexivity | ].
  split; [do 2 other_header; apply Get_set_header_eq | ].
  split; [other_header; apply Get_set_header_eq | ].
  split; [apply Get_set_header_eq | ].
  split; [ | reflexivity].
  intros k Hk. cbn [map In] in Hk.
  rewrite !Get_set_header_ne; [reflexivity | | | ]; intros Heq; apply Hk; rewrite <- Heq; tauto.
Qed.

(** X20. Whatever the limiter, the rule, the store and the request, the
    handler built by [Limit] does one of two things. Either it passes the
    request on: the next handler runs, once, on the same request and on a
    response without a status or body of the limiter's. Or it answers
    itself, with the limiter enabled and a store attached: with 429 and
    ["Rate limit exceeded"], or with 503 and
    ["Service temporarily unavailable"]; then the next handler does not
    run, and the world is as the store call left it. *)
Theorem Limit_passes_or_answers rl E rule next w r st :
  let o := Limit rl E rule next w r st in
  (passed_on o = true
   /\ exists w1 st1,
        response o = fst (next w1 r st1) /\ after o = snd (next w1 r st1)
        /\ Status w1 = Status w /\ Body w1 = Body w)
  \/ (passed_on o = false
      /\ enabled rl = true /\ redis_attached rl = true
      /\ after o = snd (execute_allow E (store_key rule r) (store_limit rule) st)
      /\ exists w1 msg code,
           response o = Http.Error w1 msg code
           /\ Status w1 = Status w /\ Body w1 = Body w
           /\ ((code = 429 /\ msg = "Rate limit exceeded")
               \/ (code = 503 /\ msg = "Service temporarily unavailable" /\ w1 = w))).
Proof.
  cbv zeta. destruct (Limit_on_or_off rl) as [(Hen & Hre) | Hoff].
  - rewrite MiddlewareFacts.Limit_reaches_store by assumption.
    destruct (execute_allow E (store_key rule r) (store_limit rule) st)
      as [[res | err] st1]; cbv zeta.
    + destruct (Allowed res =? 0).
      * right. cbn [passed_on after response snd]. split; [reflexivity | ].
        split; [exact Hen | ]. split; [exact Hre | ]. split; [reflexivity | ].
        eexists _, _, _. split; [reflexivity | ]. split; [reflexivity | ].
        split; [reflexivity | ]. left. split; reflexivity.
      * left. unfold serve_next. destruct (next _ r st1) as [w' st'] eqn:Hnext.
        cbn [passed_on after response]. split; [reflexivity | ].
        eexists _, st1. rewrite Hnext. repeat split; reflexivity.
    + right. cbn [passed_on after response snd]. split; [reflexivity | ].
      split; [exact Hen | ]. split; [exact Hre | ]. split; [reflexivity | ].
      exists w, "Service temporarily unavailable", 503. repeat split; try reflexivity.
      right. repeat split; reflexivity.
  - left. rewrite Limit_off by exact Hoff. unfold serve_next.
    destruct (next w r st) as [w' st'] eqn:Hnext. cbn [passed_on after response].
    split; [reflexivity | ]. exists w, st. rewrite Hnext. repeat split; reflexivity.
Qed.

(** X21. The store is asked under a key that starts with ["ratelimit:"] and
    goes on with the strategy's key, or with ["default"] when that key is
    empty; it is never asked under the bare prefix. The handler depends on
    the store through the answer for that key and the rule's limit only: two
    stores that agree there give the same outcome. *)
Theorem store_asked_under_namespaced_key rl E E' rule next w r st :
  (exists k, store_key rule r = "ratelimit:" +:+ k
             /\ k <> ""
             /\ (fst (Strategy rule r) <> "" -> k = fst (Strategy rule r))
             /\ (fst (Strategy rule r) = "" -> k = "default"))
  /\ (execute_allow E (store_key rule r) (store_limit rule) st
      = execute_allow E' (store_key rule r) (store_limit rule) st ->
      time_Now E = time_Now E' -> Duration_String E = Duration_String E' ->
      Limit rl E rule next w r st = Limit rl E' rule next w r st).
Proof.
  split.
  - unfold store_key.
    destruct (String.eqb_spec (fst (Strategy rule r)) "") as [He | Hne].
    + exists "default". repeat split; [discriminate | intros Hk; contradiction].
    + exists (fst (Strategy rule r)). repeat split; [exact Hne | intros Hk; contradiction].
  - intros Hsame Hnow Hdur. destruct (Limit_on_or_off rl) as [(Hen & Hre) | Hoff].
    + rewrite !MiddlewareFacts.Limit_reaches_store by assumption.
      rewrite Hsame, Hnow, Hdur. reflexivity.
    + rewrite !Limit_off by exact Hoff. reflexivity.
Qed.

(** X22. A limiter whose security logger is nil, or has no sink, leaves no
    record, whichever of the three rules is used and however the request is
    answered. *)
Theorem no_sink_no_records rl E limit window burst route next w r st :
  silent (securityLogger rl) ->
  security_log (GlobalLimit rl E limit window burst next w r st) = []
  /\ security_log (PerUserLimit rl E limit window burst next w r st) = []
  /\ security_log (PerRouteLimit rl E route limit window burst next w r st) = [].
Proof.
  intros Hs.
  assert (Hrule : forall rule, snd (Strategy rule r) = [] ->
            security_log (Limit rl E rule next w r st) = []).
  { intros rule Hstrat. destruct (Limit_on_or_off rl) as [(Hen & Hre) | Hoff].
    - rewrite MiddlewareFacts.Limit_reaches_store by assumption.
      destruct (execute_allow E _ _ st) as [[res | err] st1]; cbv zeta.
      + destruct (Allowed res =? 0).
        * cbn [security_log]. rewrite Hstrat. unfold LogRateLimitExceeded.
          rewrite LogEvent_silent by exact Hs. reflexivity.
        * unfold serve_next. destruct (next _ r st1). exact Hstrat.
      + cbn [security_log]. rewrite Hstrat, LogEvent_silent by exact Hs. reflexivity.
    - rewrite Limit_off by exact Hoff. unfold serve_next. destruct (next w r st).
      reflexivity. }
  unfold GlobalLimit, PerUserLimit, PerRouteLimit.
  split; [ | split]; apply Hrule; cbn [Strategy].
  - apply ByIP_silent, Hs.
  - unfold ByUser. destruct (ctx_user_id r); [reflexivity | apply ByIP_silent, Hs].
  - unfold ByRoute. pose proof (ByIP_silent rl r Hs) as Hb.
    destruct (ByIP rl r). exact Hb.
Qed.

End Handler.
End WithNet.

Import Scenario IPv4.

Lemma trusted_proxies_from_cidrs_witness :
  trustedProxies trusting_nobody = []
  /\ fst (ByIP trusting_nobody
            (request "10.0.0.5:4711" [("X-Forwarded-For", "203.0.113.9")])) = "10.0.0.5"
  /\ isTrustedProxy limiter "10.1.2.3" = true.
Proof.
  destruct (trusted_proxies_from_cidrs true true ["10.0.0.0"; "ten/8"]
              (Some {| logger_attached := true |})) as (_ & Hnone).
  destruct Hnone as (Hempty & Hkey).
  { intros cidr [<- | [<- | []]]; vm_compute; reflexivity. }
  split; [exact Hempty | ].
  split; [unfold trusting_nobody; rewrite Hkey; vm_compute; reflexivity | ].
  destruct (trusted_proxies_from_cidrs true true ["10.0.0.0/8"]
              (Some {| logger_attached := true |})) as (Hiff & _).
  apply Hiff. exists "10.0.0.0/8", (167772160, 8), 167838211.
  split; [left; reflexivity | ]. split; [vm_compute; reflexivity | ].
  split; vm_compute; reflexivity.
Defined.

Lemma keys_of_the_strategies_witness :
  let r := request "203.0.113.1:4711" [("X-Forwarded-For", "198.51.100.7")] in
  ByUser limiter (with_user r "42") = ("user:42", [])
  /\ fst (ByRoute "/login" limiter r) = "route:/login:203.0.113.1"
  /\ ByUser limiter r = ByIP limiter r.
Proof.
  cbv zeta.
  destruct (keys_of_the_strategies limiter "/login"
              (with_user (request "203.0.113.1:4711" [("X-Forwarded-For", "198.51.100.7")])
                 "42") 10 (60 * Second) 15) as (_ & _ & Huser & _).
  destruct (keys_of_the_strategies limiter "/login"
              (request "203.0.113.1:4711" [("X-Forwarded-For", "198.51.100.7")])
              10 (60 * Second) 15) as (Hroute & _ & _ & Hanon).
  split; [exact (proj1 (Huser "42" eq_refl)) | ].
  split; [rewrite Hroute; vm_compute; reflexivity | exact (Hanon eq_refl)].
Defined.

(** A client outside every trusted range that claims to be the proxy
    [10.0.0.5] chooses its key through X-Forwarded-For, unreported. *)
Lemma RealIP_decides_the_key_witness :
  ByIP limiter
    (rewrite_remote (request "203.0.113.1:4711"
                       [("X-Real-IP", "10.0.0.5"); ("X-Forwarded-For", "198.51.100.7")]))
  = ("198.51.100.7", [])
  /\ ByIP limiter (rewrite_remote (request "203.0.113.1:4711" [("X-Real-IP", "192.0.2.1")]))
     = ("192.0.2.1", []).
Proof.
  split.
  - destruct (RealIP_decides_the_key limiter
                (request "203.0.113.1:4711"
                   [("X-Real-IP", "10.0.0.5"); ("X-Forwarded-For", "198.51.100.7")]))
      as (_ & _ & Hproxy).
    rewrite Hproxy; [vm_compute; reflexivity | vm_compute; discriminate
                     | vm_compute; discriminate | ].
    apply MiddlewareFacts.isTrustedProxy_spec. vm_compute. reflexivity.
  - destruct (RealIP_decides_the_key limiter
                (request "203.0.113.1:4711" [("X-Real-IP", "192.0.2.1")]))
      as (_ & Hplain & _).
    rewrite Hplain; [vm_compute; reflexivity | vm_compute; discriminate
                     | vm_compute; reflexivity].
Defined.

Lemma records_carry_the_forwarded_ip_witness :
  let r := request "203.0.113.1:4711" [("X-Forwarded-For", "203.0.113.9, 10.0.0.5")] in
  ip (spoofing_record r "203.0.113.9, 10.0.0.5") = "203.0.113.9, 10.0.0.5".
Proof.
  cbv zeta.
  destruct (records_carry_the_forwarded_ip None "" "" 
              (request "203.0.113.1:4711" [("X-Forwarded-For", "203.0.113.9, 10.0.0.5")])
              ∅ limiter) as (_ & Hspoof).
  destruct (Hspoof (spoofing_record
                      (request "203.0.113.1:4711"
                         [("X-Forwarded-For", "203.0.113.9, 10.0.0.5")])
                      "203.0.113.9, 10.0.0.5")) as (_ & Hip & _).
  { vm_compute. left. reflexivity. }
  rewrite Hip. vm_compute. reflexivity.
Defined.

Lemma LogAuthEvent_levels_witness :
  let sl := Some {| logger_attached := true |} in
  let r := request "203.0.113.1:4711" [] in
  map level (LogAuthEvent sl "login_failed" "a@example.org" r false "bad password")
  = [LError]
  /\ LogAuthEvent (Some {| logger_attached := false |}) "login_failed" "a@example.org" r
       false "bad password" = [].
Proof.
  cbv zeta. split.
  - destruct (LogAuthEvent_levels (Some {| logger_attached := true |}) "login_failed"
                "a@example.org" (request "203.0.113.1:4711" []) false "bad password")
      as (Hrec & _).
    destruct (Hrec _ eq_refl eq_refl) as (rec & Heq & _ & Hlevel & _).
    rewrite Heq. cbn [map]. rewrite Hlevel. reflexivity.
  - destruct (LogAuthEvent_levels (Some {| logger_attached := false |}) "login_failed"
                "a@example.org" (request "203.0.113.1:4711" []) false "bad password")
      as (_ & Hsilent).
    apply Hsilent. right. eexists. split; reflexivity.
Defined.

(** For a limit of 100 requests the record says ["d"]. *)
Lemma rate_limit_record_limit_attribute_witness :
  exists rec,
    LogRateLimitExceeded (Some {| logger_attached := true |})
      (request "203.0.113.1:4711" []) 100 "1m0s" = [rec]
    /\ details rec !! "limit" = Some "d".
Proof.
  destruct (rate_limit_record_limit_attribute {| logger_attached := true |}
              (request "203.0.113.1:4711" []) 100 "1m0s" eq_refl ltac:(lia))
    as (rec & Heq & _ & _ & _ & Hlimit & _ & Hbyte).
  exists rec. split; [exact Heq | ]. rewrite Hlimit, Hbyte by lia. reflexivity.
Defined.

Lemma Limit_off_is_transparent_witness :
  let r := request "203.0.113.1:4711" [("X-Forwarded-For", "198.51.100.7")] in
  let o := Limit storeless_limiter granting_env global_rule ok_handler blank r 0%nat in
  response o = WriteHeader blank 200 /\ passed_on o = true /\ security_log o = [].
Proof.
  cbv zeta.
  destruct (Limit_off_is_transparent storeless_limiter granting_env global_rule ok_handler
              blank (request "203.0.113.1:4711" [("X-Forwarded-For", "198.51.100.7")])
              0%nat (or_intror eq_refl)) as (Hresp & _ & Hpass & Hlog & _).
  split; [exact Hresp | ]. split; [exact Hpass | exact Hlog].
Defined.

Lemma Limit_quota_exceeded_witness :
  let r := request "203.0.113.1:4711" [] in
  let o := Limit limiter denying_env global_rule ok_handler blank r 0%nat in
  passed_on o = false
  /\ Status (response o) = Some 429
  /\ Get (RespHeader (response o)) "Retry-After" = "42"
  /\ Get (RespHeader (response o)) "X-RateLimit-Limit" = "10"
  /\ map event_type (security_log o) = ["rate_limit_exceeded"].
Proof.
  cbv zeta.
  destruct (Limit_quota_exceeded limiter denying_env global_rule ok_handler blank
              (request "203.0.113.1:4711" []) 0%nat
              {| Allowed := 0; Remaining := 0; RetryAfter := 42 * Second;
                 ResetAfter := 60 * Second |} 0%nat eq_refl eq_refl eq_refl eq_refl)
    as (Hpass & _ & Hstatus & _ & Hlimit & _ & _ & Hretry & Hlog).
  split; [exact Hpass | ]. split; [exact (Hstatus eq_refl) | ].
  split; [rewrite Hretry; vm_compute; reflexivity | ].
  split; [rewrite Hlimit; vm_compute; reflexivity | ].
  rewrite Hlog. vm_compute. reflexivity.
Defined.

Lemma Limit_grants_with_quota_headers_witness :
  let r := request "203.0.113.1:4711" [] in
  let o := Limit limiter granting_env global_rule ok_handler blank r 0%nat in
  passed_on o = true
  /\ Get (RespHeader (response o)) "X-RateLimit-Remaining" = "9"
  /\ Get (RespHeader (response o)) "Retry-After" = "".
Proof.
  cbv zeta.
  destruct (Limit_grants_with_quota_headers limiter granting_env global_rule ok_handler
              blank (request "203.0.113.1:4711" []) 0%nat
              {| Allowed := 1; Remaining := 9; RetryAfter := -1; ResetAfter := 6 * Second |}
              0%nat eq_refl eq_refl eq_refl ltac:(discriminate))
    as (w1 & Hresp & _ & Hpass & _ & _ & _ & Hremaining & _ & Hother & _).
  split; [exact Hpass | ]. rewrite Hresp. cbn [ok_handler fst WriteHeader RespHeader].
  split; [rewrite Hremaining; vm_compute; reflexivity | ].
  rewrite Hother; [vm_compute; reflexivity | ].
  vm_compute. intros [Hk | [Hk | [Hk | []]]]; discriminate Hk.
Defined.

Lemma store_asked_under_namespaced_key_witness :
  let r := request "203.0.113.1:4711" [] in
  let granted := inl {| Allowed := 1; Remaining := 9; RetryAfter := -1;
                        ResetAfter := 6 * Second |} in
  Limit limiter granting_env global_rule ok_handler blank r 0%nat
  = Limit limiter (keyed_env "ratelimit:203.0.113.1" granted) global_rule ok_handler
      blank r 0%nat.
Proof.
  cbv zeta.
  destruct (store_asked_under_namespaced_key limiter granting_env
              (keyed_env "ratelimit:203.0.113.1"
                 (inl {| Allowed := 1; Remaining := 9; RetryAfter := -1;
                         ResetAfter := 6 * Second |}))
              global_rule ok_handler blank (request "203.0.113.1:4711" []) 0%nat)
    as (_ & Hsame).
  apply Hsame; [vm_compute; reflexivity | reflexivity | reflexivity].
Defined.

Lemma no_sink_no_records_witness :
  let r := request "203.0.113.1:4711" [("X-Forwarded-For", "198.51.100.7")] in
  security_log (GlobalLimit silent_limiter breaker_open_env 10 (60 * Second) 15
                  ok_handler blank r 0%nat) = [].
Proof.
  cbv zeta.
  destruct (no_sink_no_records silent_limiter breaker_open_env 10 (60 * Second) 15 "/login"
              ok_handler blank
              (request "203.0.113.1:4711" [("X-Forwarded-For", "198.51.100.7")]) 0%nat
              (or_introl eq_refl)) as (Hglobal & _).
  exact Hglobal.
Defined.

End LimiterFacts.
